(** * Tic-Tac-Toe (src/app.js): a shallow embedding and its properties

    The program is one closure holding the game variables [board],
    [currentPlayer], [gameOver] and [focusedIndex], and the functions that
    read and write them: [getWinner], [isDraw], [render], [attemptMove],
    [restartGame], [setFocus], the click listener of a cell and
    [handleKeyDown].  Each of them is embedded below as a function over an
    explicit [State], in a small state-and-exception monad (a failed
    property access on [undefined] raises a TypeError in JavaScript and
    leaves the assignments made so far in place).

    Of the page, the state keeps what the game writes and a user reads
    back: the status text, the text of the live region, and the cells
    carrying the class [win].  Labels, [disabled], [aria-pressed], the
    class [focused] and the browser focus of the nine buttons are written
    by the program and never read by it; they are not tracked.  The array
    [cells] holds exactly the nine buttons built once by [createBoardUI],
    so [cells[i]] is a button exactly when [0 <= i <= 8].

    The module [Dom] further down runs the same functions on the state
    together with the nine buttons (text, [disabled], [aria-pressed],
    labels and the classes [focused] and [win]), from [createBoardUI] on;
    only the browser focus itself stays outside. *)

From Stdlib Require Import ZArith Bool List String Lia.
From stdpp Require Import base list gmap strings.
From stdpp Require Import pretty.
Import ListNotations.

Local Open Scope Z_scope.

(** ** JavaScript values held by the game *)

Module Js.

(** The strings "X" and "O". *)
Inductive Player : Type := X | O.

(** What [board[i]] can evaluate to: [null], [undefined], or a mark. *)
Inductive Value : Type :=
  | Null
  | Undefined
  | Str (p : Player).

#[global] Instance Player_eq_dec : EqDecision Player.
Proof. solve_decision. Defined.

#[global] Instance Value_eq_dec : EqDecision Value.
Proof. solve_decision. Defined.

(** ToBoolean: [null] and [undefined] are falsy, a non-empty string is truthy. *)
Definition truthy (v : Value) : bool :=
  match v with
  | Str _ => true
  | Null | Undefined => false
  end.

(** [v === w] *)
Definition strict_eq (v w : Value) : bool := bool_decide (v = w).

Definition player_text (p : Player) : string :=
  match p with X => "X" | O => "O" end.

(** String conversion inside a template literal. *)
Definition to_text (v : Value) : string :=
  match v with
  | Null => "null"
  | Undefined => "undefined"
  | Str p => player_text p
  end.

(** An array object, for integer keys: the elements at [0 .. length-1]
    (a hole reads as [undefined]) and the properties stored under negative
    integer keys, which are ordinary properties outside the elements. *)
Record Array : Type := mkArray {
  items : list Value;
  props : gmap Z Value
}.

Definition length (a : Array) : Z := Z.of_nat (List.length (items a)).

(** [a[i]] *)
Definition get (a : Array) (i : Z) : Value :=
  if i <? 0 then default Undefined (props a !! i)
  else default Undefined (items a !! Z.to_nat i).

(** [a[i] = v]: in range the element is replaced; at or past the length the
    array grows, the gap being holes; a negative key sets a property and
    leaves elements and length alone. *)
Definition set (a : Array) (i : Z) (v : Value) : Array :=
  if i <? 0 then mkArray (items a) (<[i := v]> (props a))
  else if i <? length a then mkArray (<[Z.to_nat i := v]> (items a)) (props a)
  else mkArray (items a ++ replicate (Z.to_nat (i - length a)) Undefined ++ [v])
               (props a).

(** [a.every(f)]: visits the elements only ([f] holds of [undefined] in the
    one use below, so a skipped hole and a visited [undefined] agree). *)
Definition every (f : Value -> bool) (a : Array) : bool := forallb f (items a).

(** [Array(n).fill(v)] *)
Definition fill (n : nat) (v : Value) : Array := mkArray (replicate n v) ∅.

End Js.

Import Js.

(** ** The game state *)

(** A winning line [[a, b, c]]. *)
Definition Line : Type := (Z * Z * Z)%type.

Definition line_cells (l : Line) : list Z :=
  let '(a, b, c) := l in [a; b; c].

(** The object [{ player, line }] returned by [getWinner]. *)
Record Winner : Type := mkWinner {
  player : Value;
  line : Line
}.

Record State : Type := mkState {
  board : Array;             (* "X" | "O" | null *)
  currentPlayer : Player;
  gameOver : bool;
  focusedIndex : Z;          (* keyboard focus state (0..8) *)
  statusText : string;       (* statusTextEl.textContent *)
  liveRegion : string;       (* liveRegionEl.textContent *)
  winCells : list Z          (* the cells carrying the class "win" *)
}.

Definition set_board (b : Array) (s : State) : State :=
  mkState b (currentPlayer s) (gameOver s) (focusedIndex s)
          (statusText s) (liveRegion s) (winCells s).
Definition set_currentPlayer (p : Player) (s : State) : State :=
  mkState (board s) p (gameOver s) (focusedIndex s)
          (statusText s) (liveRegion s) (winCells s).
Definition set_gameOver (g : bool) (s : State) : State :=
  mkState (board s) (currentPlayer s) g (focusedIndex s)
          (statusText s) (liveRegion s) (winCells s).
Definition set_focusedIndex (i : Z) (s : State) : State :=
  mkState (board s) (currentPlayer s) (gameOver s) i
          (statusText s) (liveRegion s) (winCells s).
Definition set_statusText (t : string) (s : State) : State :=
  mkState (board s) (currentPlayer s) (gameOver s) (focusedIndex s)
          t (liveRegion s) (winCells s).
Definition set_liveRegion (t : string) (s : State) : State :=
  mkState (board s) (currentPlayer s) (gameOver s) (focusedIndex s)
          (statusText s) t (winCells s).
Definition set_winCells (w : list Z) (s : State) : State :=
  mkState (board s) (currentPlayer s) (gameOver s) (focusedIndex s)
          (statusText s) (liveRegion s) w.

(** ** Statements that read and write the state and may throw *)

Inductive Res (A : Type) : Type :=
  | Ok (a : A)
  | Throw.                   (* TypeError *)
Arguments Ok {A} a.
Arguments Throw {A}.

Definition Eff (A : Type) : Type := State -> Res A * State.

Definition ret {A} (a : A) : Eff A := fun s => (Ok a, s).
Definition throw {A} : Eff A := fun s => (Throw, s).
Definition bind {A B} (m : Eff A) (k : A -> Eff B) : Eff B :=
  fun s => match m s with
           | (Ok a, s') => k a s'
           | (Throw, s') => (Throw, s')
           end.
Definition modify (f : State -> State) : Eff unit := fun s => (Ok tt, f s).
Definition gets {A} (f : State -> A) : Eff A := fun s => (Ok (f s), s).

Declare Scope eff_scope.
Delimit Scope eff_scope with eff.
Notation "x <- m ;; k" := (bind m (fun x => k))
  (at level 100, m at next level, right associativity) : eff_scope.
Notation "m ;; k" := (bind m (fun _ => k))
  (at level 100, right associativity) : eff_scope.
Local Open Scope eff_scope.

(** ** The program *)

(** Precomputed winning lines. *)
Definition WIN_LINES : list Line :=
  [ (0, 1, 2);
    (3, 4, 5);
    (6, 7, 8);
    (0, 3, 6);
    (1, 4, 7);
    (2, 5, 8);
    (0, 4, 8);
    (2, 4, 6) ].

(** The test of [getWinner] on one line:
    [board[a] && board[a] === board[b] && board[a] === board[c]]. *)
Definition line_hit (b : Array) (l : Line) : bool :=
  let '(a, b', c) := l in
  truthy (get b a) && strict_eq (get b a) (get b b')
                   && strict_eq (get b a) (get b c).

Definition winner_of (b : Array) (l : Line) : Winner :=
  let '(a, _, _) := l in mkWinner (get b a) l.

(** [getWinner]: the first line of [WIN_LINES] that passes the test, or
    [null]. *)
Definition getWinner (b : Array) : option Winner :=
  winner_of b <$> List.find (line_hit b) WIN_LINES.

(** [isDraw] *)
Definition isDraw (b : Array) : bool :=
  every (fun v => negb (strict_eq v Null)) b && negb (bool_decide (is_Some (getWinner b))).

Definition announce (message : string) : Eff unit :=
  modify (set_liveRegion message).

Definition setStatusText (text : string) : Eff unit :=
  modify (set_statusText text).

(** [setFocus]: the assignment comes first; [cells[focusedIndex]] is
    [undefined] outside 0..8 and the property access on it throws. *)
Definition setFocus (index : Z) : Eff unit :=
  modify (set_focusedIndex index) ;;
  if (0 <=? index) && (index <=? 8) then ret tt else throw.

Definition clearWinStyles : Eff unit :=
  modify (set_winCells []).

(** [for (const idx of winner.line) cells[idx].classList.add("win")] *)
Fixpoint addWin (idxs : list Z) : Eff unit :=
  match idxs with
  | [] => ret tt
  | idx :: rest =>
      (if (0 <=? idx) && (idx <=? 8)
       then modify (fun s => set_winCells (winCells s ++ [idx]) s)
       else throw) ;;
      addWin rest
  end.

(** [render] *)
Definition render : Eff unit :=
  clearWinStyles ;;
  b <- gets board ;;
  match getWinner b with
  | Some winner =>
      addWin (line_cells (line winner)) ;;
      setStatusText (to_text (player winner) +:+ " wins!") ;;
      announce (to_text (player winner) +:+ " wins!") ;;
      modify (set_gameOver true) ;;
      i <- gets focusedIndex ;;
      setFocus i
  | None =>
      if isDraw b then
        setStatusText "Draw!" ;;
        announce "Draw!" ;;
        modify (set_gameOver true) ;;
        i <- gets focusedIndex ;;
        setFocus i
      else
        p <- gets currentPlayer ;;
        setStatusText ("Turn: " +:+ player_text p)
  end.

(** [attemptMove] returns no value; the embedding returns which exit was
    taken: [GameIsOver] for the return under [if (gameOver)], [CellTaken]
    for the return after "That cell is already taken.", [Placed] for the
    end of the body. *)
Inductive Outcome : Type :=
  | GameIsOver
  | CellTaken
  | Placed.

Definition other (p : Player) : Player :=
  match p with X => O | O => X end.

Definition attemptMove (index : Z) : Eff Outcome :=
  over <- gets gameOver ;;
  if over then ret GameIsOver
  else
    b <- gets board ;;
    if negb (strict_eq (get b index) Null) then
      announce "That cell is already taken." ;;
      ret CellTaken
    else
      p <- gets currentPlayer ;;
      modify (set_board (set b index (Str p))) ;;
      modify (set_currentPlayer (if bool_decide (p = X) then O else X)) ;;
      p' <- gets currentPlayer ;;
      announce ("Move placed. Turn: " +:+ player_text p') ;;
      render ;;
      ret Placed.

(** [restartGame] *)
Definition restartGame : Eff unit :=
  modify (set_board (fill 9 Null)) ;;
  modify (set_currentPlayer X) ;;
  modify (set_gameOver false) ;;
  modify (set_focusedIndex 0) ;;
  setStatusText "Turn: X" ;;
  announce "New game started. Turn: X" ;;
  render ;;
  setFocus 0.

(** The arrow branch of [handleKeyDown]: the index handed to [setFocus].
    [Math.floor(i / 3)] is [i / 3] on [Z]; [%] takes the sign of the
    dividend, which is [Z.rem]. *)
Definition focusStep (focusedIndex : Z) (key : string) : Z :=
  let row := focusedIndex / 3 in
  let col := Z.rem focusedIndex 3 in
  let newRow := row in
  let newCol := col in
  let newRow := if String.eqb key "ArrowUp" then Z.max 0 (row - 1) else newRow in
  let newRow := if String.eqb key "ArrowDown" then Z.min 2 (row + 1) else newRow in
  let newCol := if String.eqb key "ArrowLeft" then Z.max 0 (col - 1) else newCol in
  let newCol := if String.eqb key "ArrowRight" then Z.min 2 (col + 1) else newCol in
  newRow * 3 + newCol.

(** [handleKeyDown(e)], on [e.key]. *)
Definition handleKeyDown (key : string) : Eff unit :=
  let isArrow :=
    String.eqb key "ArrowUp" || String.eqb key "ArrowDown"
    || String.eqb key "ArrowLeft" || String.eqb key "ArrowRight" in
  let isPlace := String.eqb key "Enter" || String.eqb key " " in
  if negb isArrow && negb isPlace then ret tt
  else if isArrow then
    i <- gets focusedIndex ;;
    setFocus (focusStep i key)
  else if isPlace then
    over <- gets gameOver ;;
    if over then announce "Game over. Press Restart / New Game to play again."
    else
      i <- gets focusedIndex ;;
      attemptMove i ;;
      ret tt
  else ret tt.

(** The click listener of the button built for cell [i]. *)
Definition clickCell (i : Z) : Eff unit :=
  over <- gets gameOver ;;
  if over then ret tt
  else
    setFocus i ;;
    attemptMove i ;;
    ret tt.

(** The variables as their declarations initialise them, before the first
    [restartGame()] at the end of the script.  The two texts are those of
    the page as loaded, which the script does not read; [restartGame]
    overwrites both (see [restartGame_ok]), so the empty string stands for
    them here. *)
Definition initial : State :=
  mkState (fill 9 Null) X false 0 "" "" [].

(** The state after [restartGame()]. *)
Definition newGame (s : State) : State := snd (restartGame s).

(** ** The events of the page *)

Inductive Event : Type :=
  | Click (i : Z)            (* a click on the button of cell [i] *)
  | KeyDown (key : string)
  | RestartClick.

Definition dispatch (e : Event) : Eff unit :=
  match e with
  | Click i => clickCell i
  | KeyDown key => handleKeyDown key
  | RestartClick => restartGame
  end.

(** The page builds a button, and so a click listener, for the cells 0..8
    only. *)
Definition event_ok (e : Event) : Prop :=
  match e with
  | Click i => 0 <= i <= 8
  | _ => True
  end.

(** The states the page goes through: the first [restartGame()] of the
    script, then one listener per event. *)
Inductive reachable : State -> Prop :=
  | reach_start : reachable (newGame initial)
  | reach_event s e :
      reachable s -> event_ok e -> reachable (snd (dispatch e s)).

(** ** The game seen as an engine *)

(** What [render] finds on a board (its three branches), as a value. *)
Inductive Status : Type :=
  | InProgress
  | Won (mark : Value) (l : Line)
  | Draw.

Definition evaluate (b : Array) : Status :=
  match getWinner b with
  | Some winner => Won (player winner) (line winner)
  | None => if isDraw b then Draw else InProgress
  end.

Definition terminal (st : Status) : bool :=
  match st with
  | InProgress => false
  | Won _ _ | Draw => true
  end.

(** The status text [render] writes for each branch. *)
Definition status_text (st : Status) (turn : Player) : string :=
  match st with
  | InProgress => "Turn: " +:+ player_text turn
  | Won mark _ => to_text mark +:+ " wins!"
  | Draw => "Draw!"
  end.

(** The cells [render] marks with the class "win" for each branch. *)
Definition status_cells (st : Status) : list Z :=
  match st with
  | Won _ l => line_cells l
  | InProgress | Draw => []
  end.

(** The state carries the status [st]: in [gameOver], in the status text
    and in the highlighted cells. *)
Definition shows (s : State) (st : Status) : Prop :=
  gameOver s = terminal st /\
  statusText s = status_text st (currentPlayer s) /\
  winCells s = status_cells st.

(** A board as the game builds it: nine cells, each [null] or a mark, and
    no property besides the elements. *)
Definition wf_board (b : Array) : Prop :=
  List.length (items b) = 9%nat /\
  Forall (fun v => v <> Undefined) (items b) /\
  props b = ∅.

Definition wf_state (s : State) : Prop :=
  wf_board (board s) /\ 0 <= focusedIndex s <= 8.

(** A cell holds a mark. *)
Definition non_empty (v : Value) : Prop := exists p, v = Str p.

(** The three cells of a line are equal and non-empty. *)
Definition satisfied (b : Array) (l : Line) : Prop :=
  let '(x, y, z) := l in
  non_empty (get b x) /\ get b x = get b y /\ get b x = get b z.

(** [l] is the first satisfied line of [WIN_LINES]. *)
Definition first_satisfied (b : Array) (l : Line) : Prop :=
  exists pre post,
    WIN_LINES = pre ++ l :: post /\
    Forall (fun l' => ~ satisfied b l') pre /\
    satisfied b l.

Definition full (b : Array) : Prop :=
  forall i, 0 <= i <= 8 -> non_empty (get b i).

(** The lines of the 3x3 grid, index = row * 3 + col. *)
Definition row_line (r : Z) : Line := (r * 3, r * 3 + 1, r * 3 + 2).
Definition column_line (c : Z) : Line := (c, 3 + c, 6 + c).
Definition diagonals : list Line := [ (0, 4, 8); (2, 4, 6) ].

(** Moves played one after the other, each of them placed; [None] when one
    is refused or throws. *)
Fixpoint playAll (moves : list Z) (s : State) : option State :=
  match moves with
  | [] => Some s
  | i :: rest =>
      match attemptMove i s with
      | (Ok Placed, s') => playAll rest s'
      | _ => None
      end
  end.

(** Who was to move, and what [attemptMove] answered, move by move. *)
Fixpoint playTrace (moves : list Z) (s : State) : list (Player * Res Outcome) :=
  match moves with
  | [] => []
  | i :: rest =>
      (currentPlayer s, fst (attemptMove i s)) :: playTrace rest (snd (attemptMove i s))
  end.

(** [n] moves have been placed since the last restart; attempts that place
    nothing do not count. *)
Inductive after_moves : nat -> State -> Prop :=
  | am_restart s0 : after_moves 0 (newGame s0)
  | am_placed n s i s' :
      after_moves n s -> attemptMove i s = (Ok Placed, s') ->
      after_moves (S n) s'
  | am_refused n s i r s' :
      after_moves n s -> attemptMove i s = (r, s') -> r <> Ok Placed ->
      after_moves n s'.

(** From [s] to [s'] the board is the same or one [null] cell received the
    mark of the player to move. *)
Definition board_step (s s' : State) : Prop :=
  board s' = board s \/
  exists index,
    get (board s) index = Null /\
    board s' = set (board s) index (Str (currentPlayer s)).

(** What holds of every state the page goes through. *)
Definition inv (s : State) : Prop :=
  wf_state s /\ gameOver s = terminal (evaluate (board s)).

(** *** The errors of the specification's [applyMove] *)

Inductive MoveError : Type :=
  | GameOver
  | InvalidIndex
  | CellOccupied.

(** The error an exit of [attemptMove] stands for. *)
Definition signalled (o : Outcome) : option MoveError :=
  match o with
  | GameIsOver => Some GameOver
  | CellTaken => Some CellOccupied
  | Placed => None
  end.

(** The precondition checks as the specification words them: game over
    first, then the range of the index, then the cell. *)
Definition spec_applyMove_error (s : State) (index : Z) : option MoveError :=
  if gameOver s then Some GameOver
  else if (index <? 0) || (8 <? index) then Some InvalidIndex
  else if negb (strict_eq (get (board s) index) Null) then Some CellOccupied
  else None.

(** *** The specification's [focusStep] *)

Inductive Direction : Type := Up | Down | Left | Right.

Definition key_of (d : Direction) : string :=
  match d with
  | Up => "ArrowUp"
  | Down => "ArrowDown"
  | Left => "ArrowLeft"
  | Right => "ArrowRight"
  end.

(** The transform as the specification words it, on row = index div 3 and
    col = index mod 3. *)
Definition spec_focusStep (currentIndex : Z) (d : Direction) : Z :=
  let row := currentIndex `div` 3 in
  let col := currentIndex `mod` 3 in
  match d with
  | Up => Z.max 0 (row - 1) * 3 + col
  | Down => Z.min 2 (row + 1) * 3 + col
  | Left => row * 3 + Z.max 0 (col - 1)
  | Right => row * 3 + Z.min 2 (col + 1)
  end.

(** Clamping spelled out cell by cell: a step from an edge stays put, any
    other step moves by one row or one column. *)
Definition clamped_step (i : Z) (d : Direction) : Z :=
  match d with
  | Up => if i <? 3 then i else i - 3
  | Down => if 6 <=? i then i else i + 3
  | Left => if (i =? 0) || (i =? 3) || (i =? 6) then i else i - 1
  | Right => if (i =? 2) || (i =? 5) || (i =? 8) then i else i + 1
  end.

(** ** The game, move by move *)

(** What the listeners do to the state, one elementary change at a time:
    the focus goes to one of the nine cells, a message goes to the live
    region, a mark is placed on an empty cell of a game that is not over,
    or the game restarts. *)
Inductive step : State -> State -> Prop :=
  | step_focus s i : 0 <= i <= 8 -> step s (set_focusedIndex i s)
  | step_announce s message : step s (set_liveRegion message s)
  | step_place s index s' :
      gameOver s = false -> get (board s) index = Null ->
      attemptMove index s = (Ok Placed, s') -> step s s'
  | step_restart s : step s (newGame s).

(** The number of cells holding the mark of [p]. *)
Definition count_mark (p : Player) (b : Array) : nat :=
  List.length (List.filter (fun v => bool_decide (v = Str p)) (items b)).

(** X has one mark more than O when O is to move, and as many otherwise. *)
Definition balanced (s : State) : Prop :=
  count_mark X (board s) =
  (count_mark O (board s) + if bool_decide (currentPlayer s = O) then 1 else 0)%nat.

(** Every complete line belongs to the player who moved last. *)
Definition last_mover_owns (s : State) : Prop :=
  forall l, In l WIN_LINES -> satisfied (board s) l ->
            get (board s) l.1.1 = Str (other (currentPlayer s)).

Definition good (s : State) : Prop :=
  inv s /\ shows s (evaluate (board s)) /\ balanced s /\ last_mover_owns s.

(** The game proper: everything but the focus and the live region. *)
Definition same_game (s s' : State) : Prop :=
  board s' = board s /\ currentPlayer s' = currentPlayer s /\
  gameOver s' = gameOver s /\ statusText s' = statusText s /\
  winCells s' = winCells s.

(** The state [render] leaves, when it returns. *)
Definition rendered (s : State) : State :=
  let st := evaluate (board s) in
  mkState (board s) (currentPlayer s) (gameOver s || terminal st) (focusedIndex s)
          (status_text st (currentPlayer s))
          (if terminal st then status_text st (currentPlayer s) else liveRegion s)
          (status_cells st).

(** Keys pressed one after the other. *)
Definition pressAll (keys : list string) (s : State) : State :=
  fold_left (fun s key => snd (handleKeyDown key s)) keys s.

(** Events handled one after the other. *)
Definition dispatchAll (events : list Event) (s : State) : State :=
  fold_left (fun s e => snd (dispatch e s)) events s.

(** Arrow keys that lead from cell [i] to cell [j]: rows first, then
    columns. *)
Definition route (i j : Z) : list Direction :=
  replicate (Z.to_nat (j `div` 3 - i `div` 3)) Down ++
  replicate (Z.to_nat (i `div` 3 - j `div` 3)) Up ++
  replicate (Z.to_nat (j `mod` 3 - i `mod` 3)) Right ++
  replicate (Z.to_nat (i `mod` 3 - j `mod` 3)) Left.

(** ** The page: the nine buttons *)

(** The same functions once more, now with the buttons they write to.  A
    button is kept as the attributes and classes the script sets on it;
    [cells] is the array of that name.  What the functions do to the game
    state is what the functions above do (see [page_follows_game]); the
    state's [winCells] is kept next to the class "win" of the buttons. *)
Module Dom.

Record Button : Type := mkButton {
  ariaLabel : string;        (* aria-label *)
  dataIndex : string;        (* dataset.index *)
  textContent : string;
  disabled : bool;
  ariaPressed : string;      (* aria-pressed *)
  focused : bool;            (* classList contains "focused" *)
  win : bool                 (* classList contains "win" *)
}.

Definition set_textContent (t : string) (c : Button) : Button :=
  mkButton (ariaLabel c) (dataIndex c) t (disabled c) (ariaPressed c)
           (focused c) (win c).
Definition set_disabled (d : bool) (c : Button) : Button :=
  mkButton (ariaLabel c) (dataIndex c) (textContent c) d (ariaPressed c)
           (focused c) (win c).
Definition set_ariaPressed (a : string) (c : Button) : Button :=
  mkButton (ariaLabel c) (dataIndex c) (textContent c) (disabled c) a
           (focused c) (win c).
Definition set_focused (f : bool) (c : Button) : Button :=
  mkButton (ariaLabel c) (dataIndex c) (textContent c) (disabled c)
           (ariaPressed c) f (win c).
Definition set_win (w : bool) (c : Button) : Button :=
  mkButton (ariaLabel c) (dataIndex c) (textContent c) (disabled c)
           (ariaPressed c) (focused c) w.

Record Page : Type := mkPage {
  game : State;
  cells : list Button
}.

Definition Act (A : Type) : Type := Page -> Res A * Page.

Definition aret {A} (a : A) : Act A := fun p => (Ok a, p).
Definition abind {A B} (m : Act A) (k : A -> Act B) : Act B :=
  fun p => match m p with
           | (Ok a, p') => k a p'
           | (Throw, p') => (Throw, p')
           end.

(** A statement on the game variables alone. *)
Definition lift {A} (m : Eff A) : Act A :=
  fun p => let '(r, s') := m (game p) in (r, mkPage s' (cells p)).

(** [cells.forEach(...)] and the like. *)
Definition onCells (f : list Button -> list Button) : Act unit :=
  fun p => (Ok tt, mkPage (game p) (f (cells p))).

(** [cells[i]], [undefined] outside the array. *)
Definition cell (cs : list Button) (i : Z) : option Button :=
  if i <? 0 then None else cs !! Z.to_nat i.

(** A write to the button [cells[i]]; it throws when there is none. *)
Definition onCell (i : Z) (f : Button -> Button) : Act unit :=
  fun p => match cell (cells p) i with
           | Some c => (Ok tt, mkPage (game p) (<[Z.to_nat i := f c]> (cells p)))
           | None => (Throw, p)
           end.

Declare Scope act_scope.
Delimit Scope act_scope with act.
Notation "x <- m ;; k" := (abind m (fun x => k))
  (at level 100, m at next level, right associativity) : act_scope.
Notation "m ;; k" := (abind m (fun _ => k))
  (at level 100, right associativity) : act_scope.
Local Open Scope act_scope.

(** The button [createBoardUI] builds for cell [i]: no text, enabled, no
    class besides "cell". *)
Definition newButton (i : Z) : Button :=
  let row := i / 3 + 1 in
  let col := Z.rem i 3 + 1 in
  mkButton ("Row " +:+ pretty row +:+ " Column " +:+ pretty col)
           (pretty i) "" false "false" false false.

(** [createBoardUI] *)
Definition createBoardUI : Act unit :=
  onCells (fun _ => newButton <$> seqZ 0 9).

(** [setFocus] *)
Definition setFocus (index : Z) : Act unit :=
  lift (modify (set_focusedIndex index)) ;;
  onCells (map (set_focused false)) ;;
  i <- lift (gets focusedIndex) ;;
  onCell i (set_focused true).

(** [clearWinStyles] *)
Definition clearWinStyles : Act unit :=
  lift (modify (set_winCells [])) ;;
  onCells (map (set_win false)).

(** [for (const idx of winner.line) cells[idx].classList.add("win")] *)
Fixpoint addWin (idxs : list Z) : Act unit :=
  match idxs with
  | [] => aret tt
  | idx :: rest =>
      onCell idx (set_win true) ;;
      lift (modify (fun s => set_winCells (winCells s ++ [idx]) s)) ;;
      addWin rest
  end.

(** The first loop of [render], over the indices in [idxs]. *)
Fixpoint paint (idxs : list Z) : Act unit :=
  match idxs with
  | [] => aret tt
  | i :: rest =>
      b <- lift (gets board) ;;
      over <- lift (gets gameOver) ;;
      let v := get b i in
      onCell i (fun c =>
        set_ariaPressed (if truthy v then "true" else "false")
          (set_disabled (over || negb (strict_eq v Null))
             (set_textContent (if truthy v then to_text v else "") c))) ;;
      paint rest
  end.

(** [render] *)
Definition render : Act unit :=
  clearWinStyles ;;
  paint (seqZ 0 9) ;;
  b <- lift (gets board) ;;
  match getWinner b with
  | Some winner =>
      addWin (line_cells (line winner)) ;;
      lift (setStatusText (to_text (player winner) +:+ " wins!")) ;;
      lift (announce (to_text (player winner) +:+ " wins!")) ;;
      lift (modify (set_gameOver true)) ;;
      i <- lift (gets focusedIndex) ;;
      setFocus i
  | None =>
      if isDraw b then
        lift (setStatusText "Draw!") ;;
        lift (announce "Draw!") ;;
        lift (modify (set_gameOver true)) ;;
        i <- lift (gets focusedIndex) ;;
        setFocus i
      else
        p <- lift (gets currentPlayer) ;;
        lift (setStatusText ("Turn: " +:+ player_text p))
  end.

(** [attemptMove] *)
Definition attemptMove (index : Z) : Act Outcome :=
  over <- lift (gets gameOver) ;;
  if over then aret GameIsOver
  else
    b <- lift (gets board) ;;
    if negb (strict_eq (get b index) Null) then
      lift (announce "That cell is already taken.") ;;
      aret CellTaken
    else
      p <- lift (gets currentPlayer) ;;
      lift (modify (set_board (set b index (Str p)))) ;;
      lift (modify (set_currentPlayer (if bool_decide (p = X) then O else X))) ;;
      p' <- lift (gets currentPlayer) ;;
      lift (announce ("Move placed. Turn: " +:+ player_text p')) ;;
      render ;;
      aret Placed.

(** [restartGame] *)
Definition restartGame : Act unit :=
  lift (modify (set_board (fill 9 Null))) ;;
  lift (modify (set_currentPlayer X)) ;;
  lift (modify (set_gameOver false)) ;;
  lift (modify (set_focusedIndex 0)) ;;
  lift (setStatusText "Turn: X") ;;
  lift (announce "New game started. Turn: X") ;;
  render ;;
  setFocus 0.

(** [handleKeyDown(e)], on [e.key]. *)
Definition handleKeyDown (key : string) : Act unit :=
  let isArrow :=
    String.eqb key "ArrowUp" || String.eqb key "ArrowDown"
    || String.eqb key "ArrowLeft" || String.eqb key "ArrowRight" in
  let isPlace := String.eqb key "Enter" || String.eqb key " " in
  if negb isArrow && negb isPlace then aret tt
  else if isArrow then
    i <- lift (gets focusedIndex) ;;
    setFocus (focusStep i key)
  else if isPlace then
    over <- lift (gets gameOver) ;;
    if over then lift (announce "Game over. Press Restart / New Game to play again.")
    else
      i <- lift (gets focusedIndex) ;;
      attemptMove i ;;
      aret tt
  else aret tt.

(** The click listener of the button built for cell [i]. *)
Definition clickCell (i : Z) : Act unit :=
  over <- lift (gets gameOver) ;;
  if over then aret tt
  else
    setFocus i ;;
    attemptMove i ;;
    aret tt.

Definition dispatch (e : Event) : Act unit :=
  match e with
  | Click i => clickCell i
  | KeyDown key => handleKeyDown key
  | RestartClick => restartGame
  end.

(** The page when the script starts: no button built yet. *)
Definition loaded : Page := mkPage initial [].

(** The page once the script has run: [createBoardUI()], then
    [restartGame()]. *)
Definition start : Page := snd ((createBoardUI ;; restartGame) loaded).

(** Events handled one after the other. *)
Definition dispatchAll (events : list Event) (p : Page) : Page :=
  fold_left (fun p e => snd (dispatch e p)) events p.

(** The pages a session goes through. *)
Inductive reachable : Page -> Prop :=
  | reach_start : reachable start
  | reach_event p e :
      reachable p -> event_ok e -> reachable (snd (dispatch e p)).

(** The button of cell [i] as the game state determines it. *)
Definition button_of (s : State) (i : Z) : Button :=
  let v := get (board s) i in
  mkButton (ariaLabel (newButton i)) (dataIndex (newButton i))
           (if truthy v then to_text v else "")
           (negb (strict_eq v Null))
           (if truthy v then "true" else "false")
           (bool_decide (i = focusedIndex s))
           (bool_decide (i ∈ winCells s)).

Definition view (s : State) : list Button := button_of s <$> seqZ 0 9.

(** The buttons after [setFocus(i)], after the first loop of [render],
    after the winning line is highlighted, and after [render]. *)
Definition refocus (i : Z) (cs : list Button) : list Button :=
  zip_with (fun k c => set_focused (bool_decide (k = i)) c) (seqZ 0 9) cs.

Definition repaint (s : State) (cs : list Button) : list Button :=
  zip_with (fun k c =>
              let v := get (board s) k in
              set_ariaPressed (if truthy v then "true" else "false")
                (set_disabled (gameOver s || negb (strict_eq v Null))
                   (set_textContent (if truthy v then to_text v else "") c)))
           (seqZ 0 9) cs.

Definition highlight (idxs : list Z) (cs : list Button) : list Button :=
  zip_with (fun k c => if bool_decide (k ∈ idxs) then set_win true c else c)
           (seqZ 0 9) cs.

Definition cells_rendered (s : State) (cs : list Button) : list Button :=
  let st := evaluate (board s) in
  let cs1 := highlight (status_cells st) (repaint s (map (set_win false) cs)) in
  if terminal st then refocus (focusedIndex s) cs1 else cs1.

End Dom.

(** ** Arrays *)

Section ArrayFacts.

Implicit Types (a : Array) (i j : Z) (v : Value).

Lemma get_set_eq a i v : get (set a i v) i = v.
Proof.
  unfold get, set, Js.length.
  destruct (i <? 0) eqn:Hneg; simpl.
  - by rewrite lookup_insert_eq.
  - apply Z.ltb_ge in Hneg.
    destruct (i <? Z.of_nat (List.length (items a))) eqn:Hin; simpl.
    + apply Z.ltb_lt in Hin.
      rewrite list_lookup_insert_eq; [done | lia].
    + apply Z.ltb_ge in Hin.
      rewrite lookup_app_r by lia.
      rewrite lookup_app_r by (rewrite length_replicate; lia).
      rewrite length_replicate.
      replace (Z.to_nat i - List.length (items a)
               - Z.to_nat (i - Z.of_nat (List.length (items a))))%nat
        with 0%nat by lia.
      done.
Qed.

Lemma get_set_ne a i j v : i <> j -> get (set a i v) j = get a j.
Proof.
  intros Hij. unfold get, set, Js.length.
  destruct (i <? 0) eqn:Hneg; simpl.
  - destruct (j <? 0); [| done]. by rewrite lookup_insert_ne.
  - apply Z.ltb_ge in Hneg.
    destruct (i <? Z.of_nat (List.length (items a))) eqn:Hin; simpl.
    + destruct (j <? 0) eqn:Hj; [done |]. apply Z.ltb_ge in Hj.
      rewrite list_lookup_insert_ne; [done | lia].
    + apply Z.ltb_ge in Hin.
      destruct (j <? 0) eqn:Hj; [done |]. apply Z.ltb_ge in Hj.
      destruct (decide (Z.to_nat j < List.length (items a))%nat) as [Hlt | Hge].
      * by rewrite lookup_app_l.
      * rewrite (lookup_ge_None_2 (items a)) by lia.
        rewrite lookup_app_r by lia.
        destruct (decide (j < i)) as [Hlow | Hhigh].
        -- rewrite lookup_app_l by (rewrite length_replicate; lia).
           rewrite lookup_replicate_2; [done | lia].
        -- rewrite lookup_app_r by (rewrite length_replicate; lia).
           rewrite length_replicate.
           rewrite lookup_ge_None_2; [done | simpl; lia].
Qed.

Lemma get_outside a i :
  List.length (items a) = 9%nat -> props a = ∅ -> i < 0 \/ 8 < i ->
  get a i = Undefined.
Proof.
  intros Hlen Hprops Hout. unfold get.
  destruct (i <? 0) eqn:Hneg.
  - by rewrite Hprops, lookup_empty.
  - apply Z.ltb_ge in Hneg. rewrite lookup_ge_None_2; [done | lia].
Qed.

Lemma wf_get_outside a i : wf_board a -> i < 0 \/ 8 < i -> get a i = Undefined.
Proof. intros (Hlen & _ & Hprops). by apply get_outside. Qed.

Lemma wf_get_inside a i : wf_board a -> 0 <= i <= 8 -> get a i <> Undefined.
Proof.
  intros (Hlen & Hall & _) Hi. unfold get.
  destruct (i <? 0) eqn:Hneg; [apply Z.ltb_lt in Hneg; lia |].
  destruct (items a !! Z.to_nat i) as [v |] eqn:Hv; simpl.
  - rewrite Forall_forall in Hall. apply Hall.
    apply list_elem_of_lookup. eauto.
  - apply lookup_ge_None_1 in Hv. lia.
Qed.

Lemma wf_get_null_inside a i : wf_board a -> get a i = Null -> 0 <= i <= 8.
Proof.
  intros Hwf Hnull.
  destruct (decide (0 <= i <= 8)) as [| Hout]; [done |].
  rewrite wf_get_outside in Hnull by (done || lia). discriminate.
Qed.

Lemma wf_board_set a i v :
  wf_board a -> 0 <= i <= 8 -> v <> Undefined -> wf_board (set a i v).
Proof.
  intros (Hlen & Hall & Hprops) Hi Hv. unfold set, Js.length.
  destruct (i <? 0) eqn:Hneg; [apply Z.ltb_lt in Hneg; lia |].
  destruct (i <? Z.of_nat (List.length (items a))) eqn:Hin;
    [| apply Z.ltb_ge in Hin; lia].
  repeat split; simpl.
  - by rewrite length_insert.
  - rewrite Forall_forall. intros w Hw.
    apply list_elem_of_lookup in Hw as [k Hk].
    destruct (decide (Z.to_nat i = k)) as [<- | Hne].
    + rewrite list_lookup_insert_eq in Hk by lia. congruence.
    + rewrite list_lookup_insert_ne in Hk by done.
      rewrite Forall_forall in Hall. apply Hall.
      apply list_elem_of_lookup. eauto.
  - done.
Qed.

Lemma set_inside_items a i v :
  0 <= i < Js.length a ->
  items (set a i v) = <[Z.to_nat i := v]> (items a) /\ props (set a i v) = props a.
Proof.
  intros Hi. unfold set.
  destruct (i <? 0) eqn:Hneg; [apply Z.ltb_lt in Hneg; lia |].
  destruct (i <? Js.length a) eqn:Hin; [done | apply Z.ltb_ge in Hin; lia].
Qed.

Lemma wf_fill : wf_board (fill 9 Null).
Proof. repeat split. simpl. repeat constructor; discriminate. Qed.

Lemma get_fill i : 0 <= i <= 8 -> get (fill 9 Null) i = Null.
Proof.
  intros Hi. unfold get, fill. cbn [items props].
  destruct (i <? 0) eqn:Hneg; [apply Z.ltb_lt in Hneg; lia |].
  rewrite lookup_replicate_2; [done | lia].
Qed.

End ArrayFacts.

(** ** Winner and draw detection *)

Lemma find_first {A} (f : A -> bool) (l : list A) (x : A) :
  List.find f l = Some x <->
  exists pre post, l = pre ++ x :: post /\ Forall (fun y => f y = false) pre /\ f x = true.
Proof.
  split.
  - induction l as [| y l IH]; simpl; [discriminate |].
    destruct (f y) eqn:Hy.
    + intros [= ->]. exists [], l. by repeat split.
    + intros Hfind. destruct (IH Hfind) as (pre & post & -> & Hpre & Hx).
      exists (y :: pre), post. repeat split; [| done]. by constructor.
  - intros (pre & post & -> & Hpre & Hx).
    induction Hpre as [| y pre Hy _ IH]; simpl.
    + by rewrite Hx.
    + by rewrite Hy.
Qed.

Lemma find_none_iff {A} (f : A -> bool) (l : list A) :
  List.find f l = None <-> forall x, In x l -> f x = false.
Proof.
  split.
  - intros H x Hx. by apply (List.find_none f l).
  - induction l as [| y l IH]; simpl; [done |].
    intros H. rewrite (H y) by auto. apply IH. auto.
Qed.

Lemma truthy_non_empty v : truthy v = true <-> non_empty v.
Proof.
  split.
  - destruct v; try discriminate. by eexists.
  - by intros [p ->].
Qed.

Lemma line_hit_satisfied b l : line_hit b l = true <-> satisfied b l.
Proof.
  destruct l as [[x y] z]. unfold line_hit, satisfied, strict_eq.
  rewrite !andb_true_iff, !bool_decide_eq_true, truthy_non_empty. tauto.
Qed.

Lemma line_hit_not_satisfied b l : line_hit b l = false <-> ~ satisfied b l.
Proof. rewrite <- line_hit_satisfied. by destruct (line_hit b l). Qed.

Lemma getWinner_Some b w :
  getWinner b = Some w <-> exists l, first_satisfied b l /\ w = winner_of b l.
Proof.
  unfold getWinner, first_satisfied. split.
  - destruct (List.find (line_hit b) WIN_LINES) as [l |] eqn:Hfind; [| discriminate].
    intros [= <-]. exists l. split; [| done].
    apply find_first in Hfind as (pre & post & Heq & Hpre & Hl).
    exists pre, post. repeat split; [done | | by apply line_hit_satisfied].
    eapply Forall_impl; [exact Hpre |]. intros l'. apply line_hit_not_satisfied.
  - intros (l & (pre & post & Heq & Hpre & Hl) & ->).
    assert (List.find (line_hit b) WIN_LINES = Some l) as ->; [| done].
    apply find_first. exists pre, post. repeat split; [done | | by apply line_hit_satisfied].
    eapply Forall_impl; [exact Hpre |]. intros l'. apply line_hit_not_satisfied.
Qed.

Lemma getWinner_None b :
  getWinner b = None <-> forall l, In l WIN_LINES -> ~ satisfied b l.
Proof.
  unfold getWinner. rewrite fmap_None, find_none_iff.
  split; intros H l Hl; apply line_hit_not_satisfied; auto.
Qed.

Lemma first_satisfied_in b l : first_satisfied b l -> In l WIN_LINES /\ satisfied b l.
Proof.
  intros (pre & post & Heq & _ & Hl). split; [| done].
  rewrite Heq. apply in_or_app. right. by left.
Qed.

Lemma getWinner_in b w :
  getWinner b = Some w ->
  In (line w) WIN_LINES /\ non_empty (player w) /\ player w = get b (line w).1.1.
Proof.
  intros (l & Hfirst & ->)%getWinner_Some.
  apply first_satisfied_in in Hfirst as [Hin Hsat].
  destruct l as [[x y] z]. simpl. by destruct Hsat as (? & _).
Qed.

Lemma every_non_null_full b :
  wf_board b ->
  every (fun v => negb (strict_eq v Null)) b = true <-> full b.
Proof.
  intros Hwf. pose proof Hwf as (Hlen & Hall & Hprops).
  unfold every, full. rewrite forallb_forall. split.
  - intros Hevery i Hi.
    pose proof (wf_get_inside b i Hwf Hi) as Hdef.
    assert (get b i <> Null) as Hnn.
    { unfold get in *. destruct (i <? 0) eqn:Hneg; [apply Z.ltb_lt in Hneg; lia |].
      destruct (items b !! Z.to_nat i) as [v |] eqn:Hv; simpl in *; [| done].
      assert (In v (items b)) as Hin by (apply list_elem_of_In, list_elem_of_lookup; eauto).
      apply Hevery in Hin. unfold strict_eq in Hin.
      by apply negb_true_iff, bool_decide_eq_false in Hin. }
    destruct (get b i); [done | done | by eexists].
  - intros Hfull v Hv.
    apply list_elem_of_In, list_elem_of_lookup in Hv as [k Hk].
    pose proof (lookup_lt_Some _ _ _ Hk) as Hlt.
    specialize (Hfull (Z.of_nat k) ltac:(lia)) as [p Hp].
    unfold get in Hp.
    destruct (Z.of_nat k <? 0) eqn:Hneg; [apply Z.ltb_lt in Hneg; lia |].
    rewrite Nat2Z.id, Hk in Hp. simpl in Hp. by subst v.
Qed.

Lemma evaluate_Won b m l :
  evaluate b = Won m l <-> first_satisfied b l /\ m = get b l.1.1.
Proof.
  unfold evaluate. split.
  - destruct (getWinner b) as [w |] eqn:Hw.
    + intros [= <- <-].
      apply getWinner_Some in Hw as (l & Hfirst & ->).
      by destruct l as [[x y] z].
    + by destruct (isDraw b).
  - intros [Hfirst ->].
    assert (getWinner b = Some (winner_of b l)) as ->
      by (apply getWinner_Some; eauto).
    by destruct l as [[x y] z].
Qed.

Lemma evaluate_Draw b :
  wf_board b ->
  evaluate b = Draw <-> full b /\ forall l, In l WIN_LINES -> ~ satisfied b l.
Proof.
  intros Hwf. rewrite <- getWinner_None, <- (every_non_null_full b Hwf).
  unfold evaluate, isDraw.
  destruct (getWinner b) as [w |] eqn:Hw; [intuition congruence |].
  rewrite bool_decide_eq_false_2 by (by intros [? ?]). simpl.
  rewrite andb_true_r.
  destruct (every _ b); simpl; intuition congruence.
Qed.

Lemma evaluate_InProgress b :
  wf_board b ->
  evaluate b = InProgress <->
  ~ full b /\ forall l, In l WIN_LINES -> ~ satisfied b l.
Proof.
  intros Hwf. rewrite <- getWinner_None, <- (every_non_null_full b Hwf).
  unfold evaluate, isDraw.
  destruct (getWinner b) as [w |] eqn:Hw; [intuition congruence |].
  rewrite bool_decide_eq_false_2 by (by intros [? ?]). simpl.
  rewrite andb_true_r.
  destruct (every _ b); simpl; intuition congruence.
Qed.

(** C1.  On every board of nine cells, [evaluate] (the three branches of
    [render], through [getWinner] and [isDraw]) returns [Won mark line]
    exactly for the first line of [WIN_LINES] whose three cells are equal
    and non-empty, [mark] being what these cells hold; so it returns some
    [Won] exactly when some line is satisfied.  [WIN_LINES] lists the
    three rows top to bottom, the three columns left to right, then the
    two diagonals.  [evaluate] returns [Draw] exactly when all nine cells
    are non-empty and no line is satisfied, and [InProgress] exactly when
    no line is satisfied and some cell is empty. *)
Theorem evaluate_spec (b : Array) :
  wf_board b ->
  WIN_LINES = map row_line [0; 1; 2] ++ map column_line [0; 1; 2] ++ diagonals /\
  (forall m l, evaluate b = Won m l <-> first_satisfied b l /\ m = get b l.1.1) /\
  ((exists m l, evaluate b = Won m l) <-> exists l, In l WIN_LINES /\ satisfied b l) /\
  (evaluate b = Draw <-> full b /\ forall l, In l WIN_LINES -> ~ satisfied b l) /\
  (evaluate b = InProgress <->
     ~ full b /\ forall l, In l WIN_LINES -> ~ satisfied b l).
Proof.
  intros Hwf. split; [reflexivity |].
  split; [apply evaluate_Won |].
  split; [| split; [by apply evaluate_Draw | by apply evaluate_InProgress]].
  split.
  - intros (m & l & Hev). apply evaluate_Won in Hev as [Hfirst _].
    exists l. by apply first_satisfied_in.
  - intros (l & Hin & Hsat).
    destruct (evaluate b) as [| m l' |] eqn:Hev; [| by eauto |].
    + apply evaluate_InProgress in Hev as [_ Hnone]; [| done]. by destruct (Hnone l).
    + apply evaluate_Draw in Hev as [_ Hnone]; [| done]. by destruct (Hnone l).
Qed.

Lemma evaluate_spec_witness :
  let b := mkArray [ Str X; Str X; Str X;
                     Str O; Str O; Null;
                     Null; Null; Null ] ∅ in
  wf_board b /\
  WIN_LINES = map row_line [0; 1; 2] ++ map column_line [0; 1; 2] ++ diagonals /\
  (forall m l, evaluate b = Won m l <-> first_satisfied b l /\ m = get b l.1.1) /\
  ((exists m l, evaluate b = Won m l) <-> exists l, In l WIN_LINES /\ satisfied b l) /\
  (evaluate b = Draw <-> full b /\ forall l, In l WIN_LINES -> ~ satisfied b l) /\
  (evaluate b = InProgress <->
     ~ full b /\ forall l, In l WIN_LINES -> ~ satisfied b l).
Proof.
  intros b.
  assert (wf_board b) as Hwf by (unfold wf_board; compute_done).
  split; [exact Hwf |]. apply (evaluate_spec b Hwf).
Defined.

(** ** [render] and [setFocus] *)

#[local] Arguments setFocus : simpl never.
#[local] Arguments render : simpl never.
#[local] Arguments get : simpl never.
#[local] Arguments set : simpl never.

Lemma addWin_line l s :
  In l WIN_LINES ->
  addWin (line_cells l) s = (Ok tt, set_winCells (winCells s ++ line_cells l) s).
Proof.
  intros Hin. simpl in Hin.
  repeat (destruct Hin as [<- | Hin];
          [unfold set_winCells; cbn; by rewrite <- !app_assoc |]).
  destruct Hin.
Qed.

Lemma setFocus_inside i s :
  0 <= i <= 8 -> setFocus i s = (Ok tt, set_focusedIndex i s).
Proof.
  intros Hi. unfold setFocus, bind, modify, ret.
  destruct (0 <=? i) eqn:H0; [| apply Z.leb_gt in H0; lia].
  destruct (i <=? 8) eqn:H8; [done | apply Z.leb_gt in H8; lia].
Qed.

Lemma setFocus_state i s : snd (setFocus i s) = set_focusedIndex i s.
Proof.
  unfold setFocus, bind, modify, ret, throw.
  by destruct ((0 <=? i) && (i <=? 8)).
Qed.

Lemma set_focusedIndex_same s : set_focusedIndex (focusedIndex s) s = s.
Proof. by destruct s. Qed.

(** With the focus on one of the nine buttons, [render] returns and writes
    the status of the board into [gameOver], the status text and the
    highlighted cells; the board, the turn and the focus stay. *)
Lemma render_ok s :
  0 <= focusedIndex s <= 8 ->
  exists s',
    render s = (Ok tt, s') /\
    board s' = board s /\
    currentPlayer s' = currentPlayer s /\
    focusedIndex s' = focusedIndex s /\
    gameOver s' = gameOver s || terminal (evaluate (board s)) /\
    statusText s' = status_text (evaluate (board s)) (currentPlayer s) /\
    winCells s' = status_cells (evaluate (board s)).
Proof.
  intros Hfocus. unfold render, evaluate, clearWinStyles.
  unfold bind at 1. unfold modify at 1. unfold bind at 1. unfold gets at 1.
  cbn [board set_winCells].
  destruct (getWinner (board s)) as [w |] eqn:Hw.
  - apply getWinner_in in Hw as (Hin & _ & _).
    unfold bind at 1. rewrite addWin_line by done.
    unfold bind, setStatusText, announce, modify, gets. cbn.
    rewrite setFocus_inside by done.
    eexists. split; [reflexivity |]. cbn. by rewrite orb_true_r.
  - destruct (isDraw (board s)).
    + unfold bind, setStatusText, announce, modify, gets. cbn.
      rewrite setFocus_inside by done.
      eexists. split; [reflexivity |]. cbn. by rewrite orb_true_r.
    + unfold bind, setStatusText, modify, gets. cbn.
      eexists. split; [reflexivity |]. cbn. by rewrite orb_false_r.
Qed.

(** Whatever the focus, [render] leaves the board and the turn alone. *)
Lemma render_board s r s' :
  render s = (r, s') ->
  board s' = board s /\ currentPlayer s' = currentPlayer s.
Proof.
  unfold render, clearWinStyles.
  unfold bind at 1. unfold modify at 1. unfold bind at 1. unfold gets at 1.
  cbn [board set_winCells].
  destruct (getWinner (board s)) as [w |] eqn:Hw.
  - apply getWinner_in in Hw as (Hin & _ & _).
    unfold bind at 1. rewrite addWin_line by done.
    unfold bind, setStatusText, announce, modify, gets. cbn.
    match goal with |- context [setFocus ?i ?t] =>
      pose proof (setFocus_state i t) as Hst; destruct (setFocus i t) as [[[] |] t']
    end; simpl in Hst; intros [= <- <-]; by subst t'.
  - destruct (isDraw (board s)).
    + unfold bind, setStatusText, announce, modify, gets. cbn.
      match goal with |- context [setFocus ?i ?t] =>
        pose proof (setFocus_state i t) as Hst; destruct (setFocus i t) as [[[] |] t']
      end; simpl in Hst; intros [= <- <-]; by subst t'.
    + unfold bind, setStatusText, modify, gets. by intros [= <- <-].
Qed.

(** ** [attemptMove] *)

(** The state on which [attemptMove] calls [render] when it places a mark. *)
Lemma attemptMove_unfold index s :
  attemptMove index s =
  if gameOver s then (Ok GameIsOver, s)
  else if negb (strict_eq (get (board s) index) Null)
  then (Ok CellTaken, set_liveRegion "That cell is already taken." s)
  else
    let p := currentPlayer s in
    let s1 :=
      set_liveRegion ("Move placed. Turn: " +:+ player_text (other p))
        (set_currentPlayer (other p)
           (set_board (set (board s) index (Str p)) s)) in
    match render s1 with
    | (Ok _, s') => (Ok Placed, s')
    | (Throw, s') => (Throw, s')
    end.
Proof.
  unfold attemptMove.
  unfold bind at 1. unfold gets at 1.
  destruct (gameOver s) eqn:Hover; [done |].
  unfold bind at 1. unfold gets at 1.
  destruct (negb (strict_eq (get (board s) index) Null)); [done |].
  unfold bind, gets, modify, announce, ret. cbn.
  by destruct (currentPlayer s).
Qed.

Lemma other_flips p : other p <> p /\ other (other p) = p.
Proof. by destruct p. Qed.

Lemma strict_eq_Null v : negb (strict_eq v Null) = false <-> v = Null.
Proof.
  unfold strict_eq. rewrite negb_false_iff. apply bool_decide_eq_true.
Qed.

(** What a placed move does, field by field. *)
Lemma attemptMove_placed s index :
  wf_state s -> gameOver s = false -> get (board s) index = Null ->
  exists s',
    attemptMove index s = (Ok Placed, s') /\
    board s' = set (board s) index (Str (currentPlayer s)) /\
    currentPlayer s' = other (currentPlayer s) /\
    focusedIndex s' = focusedIndex s /\
    shows s' (evaluate (board s')) /\
    wf_state s'.
Proof.
  intros [Hwf Hfocus] Hover Hnull.
  pose proof (wf_get_null_inside _ _ Hwf Hnull) as Hin.
  rewrite attemptMove_unfold, Hover.
  rewrite (proj2 (strict_eq_Null _) Hnull). cbv zeta.
  match goal with |- context [render ?t] => destruct (render_ok t) as (s' & Hr & Hs') end;
    [done |].
  rewrite Hr. destruct Hs' as (Hb & Hp & Hf & Hg & Ht & Hw).
  cbn in Hb, Hp, Hf, Hg, Ht, Hw. rewrite Hover in Hg. simpl in Hg.
  assert (wf_board (board s')) as Hwf'
    by (rewrite Hb; by apply wf_board_set).
  exists s'. do 4 (split; [done |]). split.
  - unfold shows. rewrite Hp, Hb. exact (conj Hg (conj Ht Hw)).
  - split; [done | lia].
Qed.

Lemma attemptMove_over s index :
  gameOver s = true -> attemptMove index s = (Ok GameIsOver, s).
Proof. intros Hover. by rewrite attemptMove_unfold, Hover. Qed.

Lemma attemptMove_taken s index :
  gameOver s = false -> get (board s) index <> Null ->
  attemptMove index s = (Ok CellTaken, set_liveRegion "That cell is already taken." s).
Proof.
  intros Hover Hnn. rewrite attemptMove_unfold, Hover.
  destruct (negb (strict_eq (get (board s) index) Null)) eqn:Hneg; [done |].
  by apply strict_eq_Null in Hneg.
Qed.

(** Whatever the state, [attemptMove] either leaves the board and the turn
    alone or writes the current mark into a cell that read [null]. *)
Lemma attemptMove_board s index r s' :
  attemptMove index s = (r, s') ->
  (r <> Ok Placed /\ board s' = board s /\ currentPlayer s' = currentPlayer s /\
   gameOver s' = gameOver s /\ statusText s' = statusText s /\
   winCells s' = winCells s /\ focusedIndex s' = focusedIndex s)
  \/
  (r <> Ok GameIsOver /\ r <> Ok CellTaken /\
   gameOver s = false /\ get (board s) index = Null /\
   board s' = set (board s) index (Str (currentPlayer s)) /\
   currentPlayer s' = other (currentPlayer s)).
Proof.
  rewrite attemptMove_unfold.
  destruct (gameOver s) eqn:Hover.
  { intros [= <- <-]. left. by repeat split. }
  destruct (negb (strict_eq (get (board s) index) Null)) eqn:Hneg.
  { intros [= <- <-]. left. by repeat split. }
  apply strict_eq_Null in Hneg. cbv zeta.
  match goal with |- context [render ?t] =>
    pose proof (render_board t) as Hrb; destruct (render t) as [[[] |] t']
  end; intros [= <- <-]; right;
    destruct (Hrb _ _ eq_refl) as [Hb Hp]; cbn in Hb, Hp; by repeat split.
Qed.

(** ** [restartGame] *)

Lemma restartGame_ok s :
  restartGame s =
  (Ok tt, mkState (fill 9 Null) X false 0 "Turn: X" "New game started. Turn: X" []).
Proof. reflexivity. Qed.

Lemma wf_newGame s : wf_state (newGame s).
Proof.
  unfold newGame. rewrite restartGame_ok. split; [apply wf_fill | simpl; lia].
Qed.

Ltac wf_compute := unfold wf_state, wf_board; compute_done.

(** ** Placing a mark *)

(** C2.  In a state whose game is not over, at an index of 0..8 whose cell
    is empty, [attemptMove] places: the cell then holds the mark of the
    player who was to move and the other cells are as before, the turn has
    passed to the other player, and the state carries what [evaluate]
    returns on the new board (in [gameOver], the status text and the
    highlighted line). *)
Theorem attemptMove_success (s : State) (index : Z) :
  wf_state s -> gameOver s = false -> 0 <= index <= 8 ->
  get (board s) index = Null ->
  exists s',
    attemptMove index s = (Ok Placed, s') /\
    items (board s') = <[Z.to_nat index := Str (currentPlayer s)]> (items (board s)) /\
    get (board s') index = Str (currentPlayer s) /\
    (forall j, j <> index -> get (board s') j = get (board s) j) /\
    currentPlayer s' = other (currentPlayer s) /\
    currentPlayer s' <> currentPlayer s /\
    shows s' (evaluate (board s')).
Proof.
  intros Hwf Hover Hindex Hnull.
  destruct (attemptMove_placed s index Hwf Hover Hnull)
    as (s' & Hrun & Hb & Hp & _ & Hshows & _).
  destruct Hwf as [(Hlen & _ & _) _].
  exists s'. split; [done |].
  split; [rewrite Hb; apply set_inside_items; unfold Js.length; lia |].
  split; [rewrite Hb; apply get_set_eq |].
  split; [intros j Hj; rewrite Hb; by apply get_set_ne |].
  split; [done |].
  split; [rewrite Hp; apply other_flips | done].
Qed.

Lemma attemptMove_success_witness :
  wf_state (newGame initial) /\ gameOver (newGame initial) = false /\
  exists s',
    attemptMove 4 (newGame initial) = (Ok Placed, s') /\
    items (board s') = <[Z.to_nat 4 := Str (currentPlayer (newGame initial))]>
                         (items (board (newGame initial))) /\
    get (board s') 4 = Str (currentPlayer (newGame initial)) /\
    (forall j, j <> 4 -> get (board s') j = get (board (newGame initial)) j) /\
    currentPlayer s' = other (currentPlayer (newGame initial)) /\
    currentPlayer s' <> currentPlayer (newGame initial) /\
    shows s' (evaluate (board s')).
Proof.
  split; [apply wf_newGame |]. split; [reflexivity |].
  apply (attemptMove_success (newGame initial) 4).
  - apply wf_newGame.
  - reflexivity.
  - lia.
  - reflexivity.
Defined.

(** The status a state carries is determined by the state. *)
Lemma shows_unique s st1 st2 : shows s st1 -> shows s st2 -> st1 = st2.
Proof.
  intros (Hg1 & Ht1 & Hw1) (Hg2 & Ht2 & Hw2).
  rewrite Hg1 in Hg2. rewrite Ht1 in Ht2. rewrite Hw1 in Hw2.
  destruct st1 as [| m1 [[x1 y1] z1] |], st2 as [| m2 [[x2 y2] z2] |];
    try discriminate; try done.
  simpl in Hw2. injection Hw2 as -> -> ->.
  destruct m1 as [| | []], m2 as [| | []]; try discriminate; done.
Qed.

(** ** Refused moves *)

(** C3, as the code has it.  [attemptMove] checks in this order: if the
    game is over it returns (the [GameOver] case); otherwise, if
    [board[index]] is not [null] it refuses with "That cell is already
    taken." (the [CellOccupied] case), and that covers every index outside
    0..8, where the lookup gives [undefined]; otherwise it places.  So its
    exits follow the specification's three checks, except that an index out
    of range is reported as an occupied cell: no exit stands for
    [InvalidIndex]. *)
Theorem attemptMove_checks (s : State) (index : Z) :
  wf_state s ->
  exists o s',
    attemptMove index s = (Ok o, s') /\
    o = (if gameOver s then GameIsOver
         else if negb (strict_eq (get (board s) index) Null) then CellTaken
         else Placed) /\
    (gameOver s = false -> index < 0 \/ 8 < index -> o = CellTaken) /\
    signalled o = match spec_applyMove_error s index with
                  | Some InvalidIndex => Some CellOccupied
                  | e => e
                  end /\
    signalled o <> Some InvalidIndex.
Proof.
  intros Hwf. unfold spec_applyMove_error.
  destruct (gameOver s) eqn:Hover.
  { exists GameIsOver, s. rewrite attemptMove_over by done. by repeat split. }
  destruct (negb (strict_eq (get (board s) index) Null)) eqn:Hneg.
  - exists CellTaken, (set_liveRegion "That cell is already taken." s).
    rewrite attemptMove_taken; [| done |].
    + repeat split; try done. by destruct ((index <? 0) || (8 <? index)).
    + intros Hnull. apply strict_eq_Null in Hnull. congruence.
  - apply strict_eq_Null in Hneg.
    destruct (attemptMove_placed s index Hwf Hover Hneg) as (s' & -> & _).
    exists Placed, s'.
    pose proof (wf_get_null_inside _ _ (proj1 Hwf) Hneg) as Hin.
    destruct (index <? 0) eqn:H0; [apply Z.ltb_lt in H0; lia |].
    destruct (8 <? index) eqn:H8; [apply Z.ltb_lt in H8; lia |].
    repeat split; try done. intros _ ?. lia.
Qed.

Lemma attemptMove_checks_witness :
  wf_state (newGame initial) /\
  exists o s',
    attemptMove (-1) (newGame initial) = (Ok o, s') /\
    o = (if gameOver (newGame initial) then GameIsOver
         else if negb (strict_eq (get (board (newGame initial)) (-1)) Null)
         then CellTaken else Placed) /\
    (gameOver (newGame initial) = false -> -1 < 0 \/ 8 < -1 -> o = CellTaken) /\
    signalled o = match spec_applyMove_error (newGame initial) (-1) with
                  | Some InvalidIndex => Some CellOccupied
                  | e => e
                  end /\
    signalled o <> Some InvalidIndex.
Proof.
  split; [apply wf_newGame |].
  apply (attemptMove_checks (newGame initial) (-1)). apply wf_newGame.
Defined.

(** C3 as the specification states it fails: in a fresh game the index 9
    is out of range, the specification's checks answer [InvalidIndex], and
    [attemptMove] takes the occupied-cell exit. *)
Lemma attemptMove_InvalidIndex_counterexample :
  wf_state (newGame initial) /\
  gameOver (newGame initial) = false /\
  ~ (0 <= 9 <= 8) /\
  spec_applyMove_error (newGame initial) 9 = Some InvalidIndex /\
  attemptMove 9 (newGame initial) =
    (Ok CellTaken, set_liveRegion "That cell is already taken." (newGame initial)) /\
  signalled CellTaken <> spec_applyMove_error (newGame initial) 9.
Proof.
  split; [apply wf_newGame |].
  split; [reflexivity |]. split; [lia |].
  split; [reflexivity |]. split; [reflexivity |]. discriminate.
Qed.

(** C4.  When [attemptMove] refuses (the game-over exit or the
    occupied-cell exit, the latter also taken for an index out of range),
    the board, the turn and the status are as before the call: [board],
    [currentPlayer], [gameOver], the status text and the highlighted cells
    are untouched, and so is the focus. *)
Theorem attemptMove_failure_unchanged
    (s : State) (index : Z) (o : Outcome) (e : MoveError) (s' : State) :
  attemptMove index s = (Ok o, s') -> signalled o = Some e ->
  board s' = board s /\
  currentPlayer s' = currentPlayer s /\
  gameOver s' = gameOver s /\
  statusText s' = statusText s /\
  winCells s' = winCells s /\
  focusedIndex s' = focusedIndex s /\
  (forall st, shows s st <-> shows s' st).
Proof.
  intros Hrun Hsig.
  destruct (attemptMove_board _ _ _ _ Hrun) as [Hsame | Hplaced].
  - destruct Hsame as (_ & Hb & Hp & Hg & Ht & Hw & Hf).
    do 6 (split; [done |]). intros st. unfold shows.
    by rewrite Hp, Hg, Ht, Hw.
  - destruct Hplaced as (Hn1 & Hn2 & _).
    destruct o; [by destruct Hn1 | by destruct Hn2 | discriminate].
Qed.

Lemma attemptMove_failure_unchanged_witness :
  let s := snd (attemptMove 0 (newGame initial)) in
  let s' := set_liveRegion "That cell is already taken." s in
  attemptMove 0 s = (Ok CellTaken, s') /\
  board s' = board s /\
  currentPlayer s' = currentPlayer s /\
  gameOver s' = gameOver s /\
  statusText s' = statusText s /\
  winCells s' = winCells s /\
  focusedIndex s' = focusedIndex s /\
  (forall st, shows s st <-> shows s' st).
Proof.
  intros s s'. split; [reflexivity |].
  apply (attemptMove_failure_unchanged s 0 CellTaken CellOccupied s');
    reflexivity.
Defined.

(** ** Marks stay *)

Lemma board_step_keeps s s' j p :
  board_step s s' -> get (board s) j = Str p -> get (board s') j = Str p.
Proof.
  intros [-> | (index & Hnull & ->)] Hj; [done |].
  rewrite get_set_ne; [done |]. intros ->. congruence.
Qed.

Lemma attemptMove_board_step index s r s' :
  attemptMove index s = (r, s') -> board_step s s'.
Proof.
  intros Hrun.
  destruct (attemptMove_board _ _ _ _ Hrun)
    as [(_ & Hb & _) | (_ & _ & _ & Hnull & Hb & _)].
  - by left.
  - right. eauto.
Qed.

Lemma clickCell_board_step i s r s' : clickCell i s = (r, s') -> board_step s s'.
Proof.
  unfold clickCell. unfold bind at 1. unfold gets at 1.
  destruct (gameOver s); [intros [= <- <-]; by left |].
  unfold bind at 1.
  pose proof (setFocus_state i s) as Hst.
  destruct (setFocus i s) as [[[] |] s1]; simpl in Hst; subst s1.
  - unfold bind, ret.
    destruct (attemptMove i (set_focusedIndex i s)) as [[o |] s2] eqn:Hrun;
      intros [= <- <-]; apply attemptMove_board_step in Hrun; exact Hrun.
  - intros [= <- <-]. by left.
Qed.

Lemma handleKeyDown_board_step key s r s' :
  handleKeyDown key s = (r, s') -> board_step s s'.
Proof.
  unfold handleKeyDown. cbv zeta.
  destruct (negb _ && negb _); [intros [= <- <-]; by left |].
  destruct (_ || _ || _ || _).
  - unfold bind, gets.
    pose proof (setFocus_state (focusStep (focusedIndex s) key) s) as Hst.
    destruct (setFocus _ s) as [[[] |] s1]; simpl in Hst; subst s1;
      intros [= <- <-]; by left.
  - destruct (_ || _); [| intros [= <- <-]; by left].
    unfold bind at 1. unfold gets at 1.
    destruct (gameOver s); [intros [= <- <-]; by left |].
    unfold bind, gets, ret.
    destruct (attemptMove (focusedIndex s) s) as [[o |] s2] eqn:Hrun;
      intros [= <- <-]; apply attemptMove_board_step in Hrun; exact Hrun.
Qed.

(** C6.  A cell that holds a mark holds the same mark after [attemptMove],
    whatever the index and whether the move is placed or refused, and after
    every listener of the page other than the restart (a click on a cell,
    a key).  [restartGame] alone empties cells: the board of [newGame] has
    [null] in all nine. *)
Theorem mark_never_reset (s : State) (j : Z) (p : Player) :
  get (board s) j = Str p ->
  (forall index, get (board (snd (attemptMove index s))) j = Str p) /\
  (forall e, e <> RestartClick -> get (board (snd (dispatch e s))) j = Str p) /\
  (forall i, 0 <= i <= 8 -> get (board (newGame s)) i = Null).
Proof.
  intros Hj. split; [| split].
  - intros index. eapply board_step_keeps; [| exact Hj].
    eapply attemptMove_board_step. apply surjective_pairing.
  - intros e He. eapply board_step_keeps; [| exact Hj].
    destruct e as [i | key |]; [| | done]; simpl.
    + eapply clickCell_board_step. apply surjective_pairing.
    + eapply handleKeyDown_board_step. apply surjective_pairing.
  - intros i Hi. unfold newGame. rewrite restartGame_ok. simpl.
    by apply get_fill.
Qed.

Lemma mark_never_reset_witness :
  let s := snd (attemptMove 4 (newGame initial)) in
  get (board s) 4 = Str X /\
  (forall index, get (board (snd (attemptMove index s))) 4 = Str X) /\
  (forall e, e <> RestartClick -> get (board (snd (dispatch e s))) 4 = Str X) /\
  (forall i, 0 <= i <= 8 -> get (board (newGame s)) i = Null).
Proof.
  intros s. split; [reflexivity |].
  apply (mark_never_reset s 4 X). reflexivity.
Defined.

(** ** An index out of range *)

(** C10, with the game-over check in front.  For an index below 0 or above
    8 the lookup [board[index]] gives [undefined], which is not [null]:
    while the game is not over [attemptMove] takes the occupied-cell exit
    and changes the live region only; when the game is over it returns at
    the first check.  Either way the board, its length of 9, the turn and
    [gameOver] are as before, and no mark is written outside the nine
    cells. *)
Theorem attemptMove_outside (s : State) (index : Z) :
  wf_state s -> index < 0 \/ 8 < index ->
  get (board s) index = Undefined /\
  (gameOver s = false ->
   attemptMove index s =
     (Ok CellTaken, set_liveRegion "That cell is already taken." s)) /\
  (gameOver s = true -> attemptMove index s = (Ok GameIsOver, s)) /\
  board (snd (attemptMove index s)) = board s /\
  Js.length (board (snd (attemptMove index s))) = 9 /\
  currentPlayer (snd (attemptMove index s)) = currentPlayer s /\
  gameOver (snd (attemptMove index s)) = gameOver s.
Proof.
  intros [Hwf _] Hout.
  pose proof (wf_get_outside _ _ Hwf Hout) as Hundef.
  assert (Js.length (board s) = 9) as Hlen
    by (destruct Hwf as (Hlen & _); unfold Js.length; lia).
  split; [done |].
  destruct (gameOver s) eqn:Hover.
  - rewrite attemptMove_over by done. by repeat split.
  - rewrite attemptMove_taken by (done || congruence). by repeat split.
Qed.

Lemma attemptMove_outside_witness :
  wf_state (newGame initial) /\
  get (board (newGame initial)) 12 = Undefined /\
  (gameOver (newGame initial) = false ->
   attemptMove 12 (newGame initial) =
     (Ok CellTaken, set_liveRegion "That cell is already taken." (newGame initial))) /\
  (gameOver (newGame initial) = true ->
   attemptMove 12 (newGame initial) = (Ok GameIsOver, newGame initial)) /\
  board (snd (attemptMove 12 (newGame initial))) = board (newGame initial) /\
  Js.length (board (snd (attemptMove 12 (newGame initial)))) = 9 /\
  currentPlayer (snd (attemptMove 12 (newGame initial))) = currentPlayer (newGame initial) /\
  gameOver (snd (attemptMove 12 (newGame initial))) = gameOver (newGame initial).
Proof.
  split; [apply wf_newGame |].
  apply (attemptMove_outside (newGame initial) 12); [apply wf_newGame | lia].
Defined.

(** C10 as stated fails once the game is over: after X has won on the top
    row, [attemptMove(9)] returns at the game-over check, without the
    lookup and without the occupied-cell announcement. *)
Lemma attemptMove_outside_counterexample :
  exists s,
    playAll [0; 3; 1; 4; 2] (newGame initial) = Some s /\
    wf_state s /\
    gameOver s = true /\
    attemptMove 9 s = (Ok GameIsOver, s) /\
    fst (attemptMove 9 s) <> Ok CellTaken /\
    liveRegion (snd (attemptMove 9 s)) <> "That cell is already taken.".
Proof.
  eexists. split; [vm_compute; reflexivity |].
  split; [wf_compute |].
  split; [reflexivity |]. split; [reflexivity |].
  split; [discriminate | by vm_compute].
Qed.

(** ** Moving the focus *)

#[local] Arguments focusStep : simpl never.

Lemma focusStep_range i key : 0 <= i <= 8 -> 0 <= focusStep i key <= 8.
Proof.
  intros Hi.
  assert (i = 0 \/ i = 1 \/ i = 2 \/ i = 3 \/ i = 4 \/ i = 5 \/ i = 6 \/ i = 7 \/ i = 8)
    as Hcases by lia.
  unfold focusStep.
  destruct (String.eqb key "ArrowUp"), (String.eqb key "ArrowDown"),
    (String.eqb key "ArrowLeft"), (String.eqb key "ArrowRight");
    repeat (destruct Hcases as [-> | Hcases]); try subst i; vm_compute;
    split; discriminate.
Qed.

Lemma handleKeyDown_arrow d s :
  handleKeyDown (key_of d) s = setFocus (focusStep (focusedIndex s) (key_of d)) s.
Proof. by destruct d. Qed.

(** C7.  From every index of 0..8 and for every arrow key, the index
    handed to [setFocus] is the one the specification computes from
    row = index div 3 and col = index mod 3 (Up: row = max(0, row-1), Down:
    row = min(2, row+1), Left: col = max(0, col-1), Right:
    col = min(2, col+1), recomposed as row*3+col); it lies in 0..8; it is
    the start index itself on the edge the key points to and one row or
    one column away otherwise, so nothing wraps around; and
    [handleKeyDown] makes it the focused index. *)
Theorem focusStep_spec (i : Z) (d : Direction) :
  0 <= i <= 8 ->
  focusStep i (key_of d) = spec_focusStep i d /\
  0 <= focusStep i (key_of d) <= 8 /\
  focusStep i (key_of d) = clamped_step i d /\
  (forall s, focusedIndex s = i ->
     handleKeyDown (key_of d) s = (Ok tt, set_focusedIndex (focusStep i (key_of d)) s)).
Proof.
  intros Hi. split; [| split; [by apply focusStep_range | split]].
  - assert (i = 0 \/ i = 1 \/ i = 2 \/ i = 3 \/ i = 4 \/ i = 5 \/ i = 6 \/ i = 7 \/ i = 8)
      as Hcases by lia.
    repeat (destruct Hcases as [-> | Hcases]); try subst i; by destruct d.
  - assert (i = 0 \/ i = 1 \/ i = 2 \/ i = 3 \/ i = 4 \/ i = 5 \/ i = 6 \/ i = 7 \/ i = 8)
      as Hcases by lia.
    repeat (destruct Hcases as [-> | Hcases]); try subst i; by destruct d.
  - intros s <-. rewrite handleKeyDown_arrow.
    apply setFocus_inside. by apply focusStep_range.
Qed.

Lemma focusStep_spec_witness :
  focusStep 2 (key_of Right) = spec_focusStep 2 Right /\
  0 <= focusStep 2 (key_of Right) <= 8 /\
  focusStep 2 (key_of Right) = clamped_step 2 Right /\
  (forall s, focusedIndex s = 2 ->
     handleKeyDown (key_of Right) s =
       (Ok tt, set_focusedIndex (focusStep 2 (key_of Right)) s)).
Proof. apply (focusStep_spec 2 Right). lia. Defined.

(** ** The states of the page *)

Lemma inv_newGame s : inv (newGame s).
Proof. split; [apply wf_newGame | reflexivity]. Qed.

Lemma inv_set_focusedIndex i s : 0 <= i <= 8 -> inv s -> inv (set_focusedIndex i s).
Proof. intros Hi [[Hwf _] Hg]. split; [split; [exact Hwf | simpl; lia] | exact Hg]. Qed.

Lemma attemptMove_inv index s :
  inv s -> exists o s', attemptMove index s = (Ok o, s') /\ inv s'.
Proof.
  intros [Hwf Hg].
  destruct (gameOver s) eqn:Hover.
  { exists GameIsOver, s. rewrite attemptMove_over by done. repeat split; try apply Hwf.
    congruence. }
  destruct (decide (get (board s) index = Null)) as [Hnull | Hnn].
  - destruct (attemptMove_placed s index Hwf Hover Hnull)
      as (s' & -> & _ & _ & _ & (Hg' & _) & Hwf').
    by exists Placed, s'.
  - rewrite attemptMove_taken by done.
    exists CellTaken, (set_liveRegion "That cell is already taken." s).
    split; [done |]. split; [exact Hwf | simpl; congruence].
Qed.

Lemma dispatch_inv e s :
  inv s -> event_ok e -> exists s', dispatch e s = (Ok tt, s') /\ inv s'.
Proof.
  intros Hinv He. destruct e as [i | key |]; simpl in *.
  - unfold clickCell. unfold bind at 1. unfold gets at 1.
    destruct (gameOver s); [by exists s |].
    unfold bind at 1. rewrite setFocus_inside by done.
    destruct (attemptMove_inv i (set_focusedIndex i s)) as (o & s' & Hrun & Hinv');
      [by apply inv_set_focusedIndex |].
    unfold bind, ret. rewrite Hrun. by exists s'.
  - unfold handleKeyDown. cbv zeta.
    destruct (negb _ && negb _); [by exists s |].
    destruct (_ || _ || _ || _).
    + unfold bind, gets.
      assert (0 <= focusStep (focusedIndex s) key <= 8) as Hrange
        by (apply focusStep_range, Hinv).
      rewrite setFocus_inside by done.
      eexists. split; [done |]. by apply inv_set_focusedIndex.
    + destruct (_ || _); [| by exists s].
      unfold bind at 1. unfold gets at 1.
      destruct (gameOver s) eqn:Hover.
      * eexists. split; [done |]. destruct Hinv as [Hwf Hg]. split; [exact Hwf |].
        simpl. congruence.
      * destruct (attemptMove_inv (focusedIndex s) s Hinv) as (o & s' & Hrun & Hinv').
        unfold bind, gets, ret. rewrite Hrun. by exists s'.
  - rewrite restartGame_ok. eexists. split; [done |].
    change (inv (newGame s)). apply inv_newGame.
Qed.

(** No listener throws on a state the page goes through, the board always
    has its nine cells, the focus stays on one of them, and [gameOver] is
    set exactly when the board is won or drawn. *)
Theorem reachable_inv s :
  reachable s ->
  wf_state s /\ gameOver s = terminal (evaluate (board s)) /\
  forall e, event_ok e -> fst (dispatch e s) = Ok tt.
Proof.
  intros Hreach.
  assert (inv s) as Hinv.
  { induction Hreach as [| s e _ IH He]; [apply inv_newGame |].
    destruct (dispatch_inv e s IH He) as (s' & -> & Hinv'). exact Hinv'. }
  destruct Hinv as [Hwf Hg]. do 2 (split; [done |]).
  intros e He.
  by destruct (dispatch_inv e s (conj Hwf Hg) He) as (s' & -> & _).
Qed.

(** ** Turns *)

Lemma after_moves_inv n s :
  after_moves n s ->
  wf_state s /\ (currentPlayer s = X <-> Nat.even n = true).
Proof.
  induction 1 as [s0 | n s i s' _ [Hwf IH] Hrun | n s i r s' _ [Hwf IH] Hrun Hr].
  - split; [apply wf_newGame | done].
  - destruct (attemptMove_board _ _ _ _ Hrun)
      as [(Hno & _) | (_ & _ & Hover & Hnull & _ & Hp)]; [done |].
    destruct (attemptMove_placed s i Hwf Hover Hnull) as (t & Hrun' & _ & _ & _ & _ & Hwf').
    rewrite Hrun in Hrun'. injection Hrun' as <-.
    split; [done |]. rewrite Hp, Nat.even_succ, <- Nat.negb_even.
    destruct (currentPlayer s), (Nat.even n); simpl; intuition congruence.
  - destruct (attemptMove_board _ _ _ _ Hrun)
      as [(_ & Hb & Hp & _ & _ & _ & Hf) | (_ & _ & Hover & Hnull & _)].
    + split; [| by rewrite Hp].
      destruct Hwf as [Hwfb Hfocus]. split; [by rewrite Hb | by rewrite Hf].
    + destruct (attemptMove_placed s i Hwf Hover Hnull) as (t & Hrun' & _).
      rewrite Hrun in Hrun'. by injection Hrun' as -> _.
Qed.

Lemma after_moves_playAll moves : forall n s s',
  after_moves n s -> playAll moves s = Some s' ->
  after_moves (n + List.length moves) s'.
Proof.
  induction moves as [| i moves IH]; intros n s s' Hn; simpl.
  - intros [= <-]. by rewrite Nat.add_0_r.
  - destruct (attemptMove i s) as [[[] |] t] eqn:Hrun; try discriminate.
    intros Hrest. rewrite Nat.add_succ_r. apply (IH (S n) t s'); [| done].
    by eapply am_placed.
Qed.

(** C5.  After [n] placed moves since [newGame] (refused attempts in
    between do not count and change nothing of the turn), X is to move
    exactly when [n] is even; and [restartGame], from any state, returns
    with X to move. *)
Theorem turn_alternation (n : nat) (s : State) :
  after_moves n s ->
  (currentPlayer s = X <-> Nat.even n = true) /\
  (forall s0, restartGame s0 = (Ok tt, newGame s0) /\ currentPlayer (newGame s0) = X).
Proof.
  intros Hn. split; [by apply after_moves_inv |].
  intros s0. unfold newGame. by rewrite restartGame_ok.
Qed.

Lemma turn_alternation_witness :
  exists s,
    playAll [4; 0; 8] (newGame initial) = Some s /\
    after_moves 3 s /\
    (currentPlayer s = X <-> Nat.even 3 = true) /\
    (forall s0, restartGame s0 = (Ok tt, newGame s0) /\ currentPlayer (newGame s0) = X).
Proof.
  eexists. split; [vm_compute; reflexivity |].
  assert (after_moves 3
            (mkState (mkArray [Str O; Null; Null; Null; Str X; Null; Null; Null; Str X] ∅)
                     O false 0 "Turn: O" "Move placed. Turn: O" [])) as Hthree.
  { apply (after_moves_playAll [4; 0; 8] 0 (newGame initial));
      [apply am_restart | vm_compute; reflexivity]. }
  split; [exact Hthree |].
  apply (turn_alternation 3 _ Hthree).
Defined.

(** ** Two games played out *)

(** C8, as the code plays it.  From [newGame], the moves at 0, 1, 2, 3, 5,
    6, 4, 7, 8 are all placed, by X and O in turn, X first; the ninth
    completes the right column and the game ends won by X on the line
    [2, 5, 8] (the first satisfied line in the order of [WIN_LINES]; the
    diagonal [0, 4, 8] is complete too), with the board
    X O X / O X X / O O X. *)
Theorem nine_moves_scenario :
  playTrace [0; 1; 2; 3; 5; 6; 4; 7; 8] (newGame initial) =
    [ (X, Ok Placed); (O, Ok Placed); (X, Ok Placed);
      (O, Ok Placed); (X, Ok Placed); (O, Ok Placed);
      (X, Ok Placed); (O, Ok Placed); (X, Ok Placed) ] /\
  exists s,
    playAll [0; 1; 2; 3; 5; 6; 4; 7; 8] (newGame initial) = Some s /\
    items (board s) =
      [ Str X; Str O; Str X;
        Str O; Str X; Str X;
        Str O; Str O; Str X ] /\
    evaluate (board s) = Won (Str X) (2, 5, 8) /\
    shows s (Won (Str X) (2, 5, 8)) /\
    satisfied (board s) (0, 4, 8).
Proof.
  split; [vm_compute; reflexivity |].
  eexists. split; [vm_compute; reflexivity |].
  split; [reflexivity |]. split; [vm_compute; reflexivity |].
  split; [by vm_compute |].
  split; [by exists X | split; reflexivity].
Qed.

(** C8 as stated fails: the game of these nine moves does not end in a
    draw, and its board is not X O X / O O X / O X O (the centre is X's:
    the move at 4 is the seventh, so X's). *)
Lemma nine_moves_counterexample :
  exists s,
    playAll [0; 1; 2; 3; 5; 6; 4; 7; 8] (newGame initial) = Some s /\
    evaluate (board s) <> Draw /\
    ~ shows s Draw /\
    get (board s) 4 = Str X /\
    items (board s) <>
      [ Str X; Str O; Str X;
        Str O; Str O; Str X;
        Str O; Str X; Str O ].
Proof.
  eexists. split; [vm_compute; reflexivity |].
  split; [by vm_compute |].
  split; [intros (_ & Ht & _); by vm_compute in Ht |].
  split; [reflexivity | discriminate].
Qed.

(** The board of the specification's example is a draw as a position, and
    a game that does end in a draw is the one of the moves 0, 1, 2, 4, 3,
    5, 7, 6, 8, with the board X O X / X O O / O X X. *)
Lemma draw_positions :
  evaluate (mkArray [ Str X; Str O; Str X;
                      Str O; Str O; Str X;
                      Str O; Str X; Str O ] ∅) = Draw /\
  exists s,
    playAll [0; 1; 2; 4; 3; 5; 7; 6; 8] (newGame initial) = Some s /\
    items (board s) =
      [ Str X; Str O; Str X;
        Str X; Str O; Str O;
        Str O; Str X; Str X ] /\
    evaluate (board s) = Draw /\
    shows s Draw.
Proof.
  split; [vm_compute; reflexivity |].
  eexists. split; [vm_compute; reflexivity |].
  split; [reflexivity |]. split; [vm_compute; reflexivity | by vm_compute].
Qed.

(** C9, with the move of O that the turn order requires.  From [newGame],
    the moves at 0 (X), 4 (O), 1 (X), then a move of O at any other free
    cell ([j] one of 3, 5, 6, 7, 8), then 2 (X) are all placed and end the
    game won by X on the line [0, 1, 2]; [attemptMove(3)] afterwards
    returns at the game-over check and leaves the state, the board with
    it, as it is. *)
Theorem top_row_scenario (j : Z) :
  In j [3; 5; 6; 7; 8] ->
  playTrace [0; 4; 1; j; 2] (newGame initial) =
    [ (X, Ok Placed); (O, Ok Placed); (X, Ok Placed); (O, Ok Placed); (X, Ok Placed) ] /\
  exists s,
    playAll [0; 4; 1; j; 2] (newGame initial) = Some s /\
    evaluate (board s) = Won (Str X) (0, 1, 2) /\
    shows s (Won (Str X) (0, 1, 2)) /\
    attemptMove 3 s = (Ok GameIsOver, s) /\
    board (snd (attemptMove 3 s)) = board s.
Proof.
  intros Hj. simpl in Hj.
  repeat (destruct Hj as [<- | Hj];
          [split; [vm_compute; reflexivity |];
           eexists; split; [vm_compute; reflexivity |];
           split; [vm_compute; reflexivity |];
           split; [by vm_compute |];
           split; reflexivity |]).
  destruct Hj.
Qed.

Lemma top_row_scenario_witness :
  In 5 [3; 5; 6; 7; 8] /\
  playTrace [0; 4; 1; 5; 2] (newGame initial) =
    [ (X, Ok Placed); (O, Ok Placed); (X, Ok Placed); (O, Ok Placed); (X, Ok Placed) ] /\
  exists s,
    playAll [0; 4; 1; 5; 2] (newGame initial) = Some s /\
    evaluate (board s) = Won (Str X) (0, 1, 2) /\
    shows s (Won (Str X) (0, 1, 2)) /\
    attemptMove 3 s = (Ok GameIsOver, s) /\
    board (snd (attemptMove 3 s)) = board s.
Proof.
  assert (In 5 [3; 5; 6; 7; 8]) as Hin by (simpl; lia).
  split; [exact Hin |]. apply (top_row_scenario 5 Hin).
Defined.

(** C9 as stated fails: after the moves at 0, 4, 1, 2 it was O's turn at
    the fourth, cell 2 holds O, no line is complete, the game goes on, and
    [attemptMove(3)] places a mark. *)
Lemma top_row_counterexample :
  playTrace [0; 4; 1; 2] (newGame initial) =
    [ (X, Ok Placed); (O, Ok Placed); (X, Ok Placed); (O, Ok Placed) ] /\
  exists s,
    playAll [0; 4; 1; 2] (newGame initial) = Some s /\
    get (board s) 2 = Str O /\
    evaluate (board s) = InProgress /\
    evaluate (board s) <> Won (Str X) (0, 1, 2) /\
    gameOver s = false /\
    fst (attemptMove 3 s) = Ok Placed /\
    get (board (snd (attemptMove 3 s))) 3 = Str X.
Proof.
  split; [vm_compute; reflexivity |].
  eexists. split; [vm_compute; reflexivity |].
  split; [reflexivity |]. split; [vm_compute; reflexivity |].
  split; [by vm_compute |]. split; [reflexivity |].
  split; [vm_compute; reflexivity | reflexivity].
Qed.

(** ** What every move keeps *)

Lemma evaluate_not_terminal b : terminal (evaluate b) = false -> evaluate b = InProgress.
Proof. by destruct (evaluate b). Qed.

Lemma filter_length_insert (f : Value -> bool) (l : list Value) (k : nat) (v w : Value) :
  l !! k = Some v ->
  (List.length (List.filter f (<[k := w]> l)) + (if f v then 1 else 0) =
   List.length (List.filter f l) + (if f w then 1 else 0))%nat.
Proof.
  revert k. induction l as [| a l IH]; intros k Hk; [done |].
  destruct k as [| k]; simpl in *.
  - injection Hk as ->. destruct (f v), (f w); simpl; lia.
  - specialize (IH k Hk). destruct (f a); simpl; lia.
Qed.

Lemma get_inside_lookup b i v :
  0 <= i -> get b i = v -> v <> Undefined -> items b !! Z.to_nat i = Some v.
Proof.
  intros Hi Hget Hv. unfold get in Hget.
  destruct (i <? 0) eqn:Hneg; [apply Z.ltb_lt in Hneg; lia |].
  destruct (items b !! Z.to_nat i); simpl in Hget; congruence.
Qed.

Lemma count_mark_set b i p q :
  wf_board b -> get b i = Null ->
  count_mark q (set b i (Str p)) =
  (count_mark q b + if bool_decide (q = p) then 1 else 0)%nat.
Proof.
  intros Hwf Hnull.
  pose proof (wf_get_null_inside _ _ Hwf Hnull) as Hi.
  destruct Hwf as (Hlen & _ & _).
  unfold count_mark.
  rewrite (proj1 (set_inside_items b i (Str p) ltac:(unfold Js.length; lia))).
  pose proof (filter_length_insert (fun v => bool_decide (v = Str q))
                (items b) (Z.to_nat i) Null (Str p)
                (get_inside_lookup b i Null ltac:(lia) Hnull ltac:(discriminate))) as Hcount.
  simpl in Hcount. rewrite Nat.add_0_r in Hcount. rewrite Hcount.
  f_equal. destruct (decide (q = p)) as [-> | Hne].
  - by rewrite !bool_decide_eq_true_2.
  - rewrite !bool_decide_eq_false_2; [done | done | congruence].
Qed.

Lemma good_newGame s : good (newGame s).
Proof.
  split; [apply inv_newGame |]. unfold newGame. rewrite restartGame_ok. simpl.
  split; [by vm_compute |]. split; [reflexivity |].
  intros l Hl Hsat. exfalso.
  assert (evaluate (fill 9 Null) = InProgress) as Hev by reflexivity.
  apply evaluate_InProgress in Hev as [_ Hnone]; [| apply wf_fill].
  by apply (Hnone l).
Qed.

Lemma placed_last_mover_owns s index s' :
  inv s -> gameOver s = false -> get (board s) index = Null ->
  board s' = set (board s) index (Str (currentPlayer s)) ->
  currentPlayer s' = other (currentPlayer s) ->
  last_mover_owns s'.
Proof.
  intros [[Hwf _] Hg] Hover Hnull Hb Hp l Hl Hsat.
  rewrite Hover in Hg. symmetry in Hg. apply evaluate_not_terminal in Hg.
  apply evaluate_InProgress in Hg as [_ Hnone]; [| done].
  rewrite Hb, Hp in *. rewrite (proj2 (other_flips _)).
  destruct l as [[x y] z]. destruct Hsat as (Hmark & Hxy & Hxz). simpl.
  destruct (decide (index = x)) as [-> | Hx]; [apply get_set_eq |].
  destruct (decide (index = y)) as [-> | Hy]; [by rewrite Hxy, get_set_eq |].
  destruct (decide (index = z)) as [-> | Hz]; [by rewrite Hxz, get_set_eq |].
  exfalso. apply (Hnone (x, y, z) Hl).
  rewrite (get_set_ne _ index x) in Hmark, Hxy, Hxz by done.
  rewrite (get_set_ne _ index y) in Hxy by done.
  rewrite (get_set_ne _ index z) in Hxz by done.
  by repeat split.
Qed.

Lemma step_good s s' : good s -> step s s' -> good s'.
Proof.
  intros (Hinv & Hshows & Hbal & Hown) Hstep.
  destruct Hstep as [s i Hi | s message | s index s' Hover Hnull Hrun | s].
  - split; [by apply inv_set_focusedIndex | done].
  - by destruct Hinv as [Hwf Hg].
  - pose proof Hinv as [Hwf _].
    destruct (attemptMove_placed s index Hwf Hover Hnull)
      as (t & Hrun' & Hb & Hp & _ & Hshows' & Hwf').
    rewrite Hrun in Hrun'. injection Hrun' as <-.
    split; [split; [done | apply Hshows'] |]. split; [done |]. split.
    + unfold balanced in *. rewrite Hb, Hp.
      rewrite !count_mark_set by (done || apply Hwf).
      destruct (currentPlayer s); simpl in *; lia.
    + by eapply placed_last_mover_owns.
  - apply good_newGame.
Qed.

Lemma steps_good s s' : good s -> rtc step s s' -> good s'.
Proof. intros Hgood Hsteps. induction Hsteps; eauto using step_good. Qed.

(** On a state the page goes through, [attemptMove] does one of three
    things. *)
Lemma attemptMove_cases index s :
  inv s ->
  (gameOver s = true /\ attemptMove index s = (Ok GameIsOver, s)) \/
  (gameOver s = false /\ get (board s) index <> Null /\
   attemptMove index s =
     (Ok CellTaken, set_liveRegion "That cell is already taken." s)) \/
  (gameOver s = false /\ get (board s) index = Null /\
   exists s', attemptMove index s = (Ok Placed, s') /\ step s s').
Proof.
  intros [Hwf _].
  destruct (gameOver s) eqn:Hover; [left; split; [done | by apply attemptMove_over] |].
  right. destruct (decide (get (board s) index = Null)) as [Hnull | Hnn].
  - right. do 2 (split; [done |]).
    destruct (attemptMove_placed s index Hwf Hover Hnull) as (s' & Hrun & _).
    exists s'. split; [done |]. by eapply step_place.
  - left. do 2 (split; [done |]). by apply attemptMove_taken.
Qed.

Lemma attemptMove_steps index s : inv s -> rtc step s (snd (attemptMove index s)).
Proof.
  intros Hinv.
  destruct (attemptMove_cases index s Hinv)
    as [(_ & ->) | [(_ & _ & ->) | (_ & _ & s' & -> & Hstep)]]; simpl.
  - done.
  - apply rtc_once, step_announce.
  - by apply rtc_once.
Qed.

Lemma dispatch_steps e s :
  inv s -> event_ok e -> rtc step s (snd (dispatch e s)).
Proof.
  intros Hinv He. destruct e as [i | key |]; simpl in *.
  - unfold clickCell. unfold bind at 1. unfold gets at 1.
    destruct (gameOver s); [done |].
    unfold bind at 1. rewrite setFocus_inside by done.
    eapply rtc_l; [by apply (step_focus s i) |].
    pose proof (attemptMove_steps i (set_focusedIndex i s)
                  (inv_set_focusedIndex i s He Hinv)) as Hsteps.
    unfold bind, ret.
    by destruct (attemptMove i (set_focusedIndex i s)) as [[o |] t].
  - unfold handleKeyDown. cbv zeta.
    destruct (negb _ && negb _); [done |].
    destruct (_ || _ || _ || _).
    + unfold bind, gets.
      assert (0 <= focusStep (focusedIndex s) key <= 8) as Hrange
        by (apply focusStep_range, Hinv).
      rewrite setFocus_inside by done. by apply rtc_once, step_focus.
    + destruct (_ || _); [| done].
      unfold bind at 1. unfold gets at 1.
      destruct (gameOver s) eqn:Hover; [apply rtc_once, step_announce |].
      pose proof (attemptMove_steps (focusedIndex s) s Hinv) as Hsteps.
      unfold bind, gets, ret.
      by destruct (attemptMove (focusedIndex s) s) as [[o |] t].
  - apply rtc_once. change (step s (newGame s)). apply step_restart.
Qed.

Lemma reachable_good s : reachable s -> good s.
Proof.
  induction 1 as [| s e _ IH He]; [apply good_newGame |].
  eapply steps_good; [exact IH |]. apply dispatch_steps; [apply IH | done].
Qed.


#[local] Arguments attemptMove : simpl never.

Lemma reachable_inv_witness :
  reachable (snd (dispatch (Click 4) (newGame initial))) /\
  wf_state (snd (dispatch (Click 4) (newGame initial))) /\
  gameOver (snd (dispatch (Click 4) (newGame initial))) =
    terminal (evaluate (board (snd (dispatch (Click 4) (newGame initial))))) /\
  forall e, event_ok e ->
            fst (dispatch e (snd (dispatch (Click 4) (newGame initial)))) = Ok tt.
Proof.
  assert (reachable (snd (dispatch (Click 4) (newGame initial)))) as Hreach
    by (apply (reach_event _ (Click 4) reach_start); simpl; lia).
  split; [exact Hreach |]. apply (reachable_inv _ Hreach).
Defined.

(** The status line and the highlighted cells always tell the status of
    the board: on every state the page goes through, the status text is
    "Turn: P" for the player to move while the board is in progress,
    "P wins!" or "Draw!" once it is not, and the cells carrying the class
    "win" are those of the winning line, none otherwise. *)
Theorem display_in_sync (s : State) :
  reachable s ->
  statusText s = status_text (evaluate (board s)) (currentPlayer s) /\
  winCells s = status_cells (evaluate (board s)).
Proof. intros (_ & (_ & Ht & Hw) & _)%reachable_good. by split. Qed.

Lemma display_in_sync_witness :
  reachable (snd (dispatch (Click 4) (newGame initial))) /\
  statusText (snd (dispatch (Click 4) (newGame initial))) =
    status_text (evaluate (board (snd (dispatch (Click 4) (newGame initial)))))
                (currentPlayer (snd (dispatch (Click 4) (newGame initial)))) /\
  winCells (snd (dispatch (Click 4) (newGame initial))) =
    status_cells (evaluate (board (snd (dispatch (Click 4) (newGame initial))))).
Proof.
  assert (reachable (snd (dispatch (Click 4) (newGame initial)))) as Hreach
    by (apply (reach_event _ (Click 4) reach_start); simpl; lia).
  split; [exact Hreach |]. apply (display_in_sync _ Hreach).
Defined.

(** The winner is the player who has just moved: on every state the page
    goes through, each complete line holds the mark of the player who is
    not to move, so two complete lines never belong to different players,
    and a won game names that player in the status text. *)
Theorem winner_is_last_mover (s : State) :
  reachable s ->
  (forall l, In l WIN_LINES -> satisfied (board s) l ->
             get (board s) l.1.1 = Str (other (currentPlayer s))) /\
  (forall m l, evaluate (board s) = Won m l ->
               m = Str (other (currentPlayer s)) /\
               statusText s = player_text (other (currentPlayer s)) +:+ " wins!").
Proof.
  intros (_ & (_ & Ht & _) & _ & Hown)%reachable_good. split; [exact Hown |].
  intros m l Hev. rewrite Hev in Ht. simpl in Ht.
  apply evaluate_Won in Hev as [[Hin Hsat]%first_satisfied_in ->].
  rewrite (Hown l Hin Hsat) in *. by split.
Qed.

Lemma winner_is_last_mover_witness :
  let s := dispatchAll [Click 0; Click 3; Click 1; Click 4; Click 2] (newGame initial) in
  reachable s /\
  evaluate (board s) = Won (Str X) (0, 1, 2) /\
  currentPlayer s = O /\
  (forall l, In l WIN_LINES -> satisfied (board s) l ->
             get (board s) l.1.1 = Str (other (currentPlayer s))) /\
  (forall m l, evaluate (board s) = Won m l ->
               m = Str (other (currentPlayer s)) /\
               statusText s = player_text (other (currentPlayer s)) +:+ " wins!").
Proof.
  intros s.
  assert (reachable s) as Hreach.
  { unfold s, dispatchAll. cbn [fold_left].
    do 5 (apply reach_event; [| simpl; lia]). apply reach_start. }
  split; [exact Hreach |]. split; [vm_compute; reflexivity |].
  split; [reflexivity |]. apply (winner_is_last_mover s Hreach).
Defined.

Lemma marks_bounded (l : list Value) :
  (List.length (List.filter (fun v => bool_decide (v = Str X)) l) +
   List.length (List.filter (fun v => bool_decide (v = Str O)) l) <= List.length l)%nat.
Proof.
  induction l as [| [| | []] l IH]; simpl; lia.
Qed.

Lemma marks_of_full (l : list Value) :
  Forall (fun v => v <> Undefined) l ->
  forallb (fun v => negb (strict_eq v Null)) l = true ->
  (List.length (List.filter (fun v => bool_decide (v = Str X)) l) +
   List.length (List.filter (fun v => bool_decide (v = Str O)) l) = List.length l)%nat.
Proof.
  induction 1 as [| v l Hv _ IH]; [done |].
  destruct v as [| | []]; simpl; try done; intros Hall%IH; lia.
Qed.

Lemma count_mark_full b :
  wf_board b -> full b -> (count_mark X b + count_mark O b = 9)%nat.
Proof.
  intros Hwf Hfull. pose proof Hwf as (Hlen & Hall & _).
  apply (every_non_null_full b Hwf) in Hfull.
  unfold count_mark. rewrite marks_of_full; done.
Qed.

(** The marks on the board follow the turns: on every state the page goes
    through, X has as many marks as O when X is to move and one more when
    O is to move; there are at most nine; and a drawn board holds five X
    and four O. *)
Theorem marks_balanced (s : State) :
  reachable s ->
  count_mark X (board s) =
    (count_mark O (board s) + if bool_decide (currentPlayer s = O) then 1 else 0)%nat /\
  (count_mark X (board s) + count_mark O (board s) <= 9)%nat /\
  (evaluate (board s) = Draw ->
   count_mark X (board s) = 5%nat /\ count_mark O (board s) = 4%nat /\
   currentPlayer s = O).
Proof.
  intros (([Hwf _] & _) & _ & Hbal & _)%reachable_good.
  split; [exact Hbal |]. split.
  - pose proof (marks_bounded (items (board s))) as Hle.
    destruct Hwf as (Hlen & _). unfold count_mark. lia.
  - intros [Hfull _]%evaluate_Draw; [| done].
    pose proof (count_mark_full _ Hwf Hfull) as Hnine.
    unfold balanced in Hbal.
    destruct (currentPlayer s); simpl in Hbal; [lia |]. repeat split; lia.
Qed.

Lemma marks_balanced_witness :
  let s := dispatchAll [Click 4; Click 0; Click 8] (newGame initial) in
  reachable s /\
  count_mark X (board s) =
    (count_mark O (board s) + if bool_decide (currentPlayer s = O) then 1 else 0)%nat /\
  (count_mark X (board s) + count_mark O (board s) <= 9)%nat /\
  (evaluate (board s) = Draw ->
   count_mark X (board s) = 5%nat /\ count_mark O (board s) = 4%nat /\
   currentPlayer s = O).
Proof.
  intros s.
  assert (reachable s) as Hreach.
  { unfold s, dispatchAll. cbn [fold_left].
    do 3 (apply reach_event; [| simpl; lia]). apply reach_start. }
  split; [exact Hreach |]. apply (marks_balanced s Hreach).
Defined.




(** ** What the listeners leave alone *)

Lemma same_game_refl s : same_game s s.
Proof. by repeat split. Qed.

Lemma same_game_focus i s : same_game s (set_focusedIndex i s).
Proof. by repeat split. Qed.

Lemma is_place_false key :
  key <> "Enter" -> key <> " " ->
  String.eqb key "Enter" || String.eqb key " " = false.
Proof.
  intros H1%String.eqb_neq H2%String.eqb_neq. by rewrite H1, H2.
Qed.

(** Once the game is over it stays as it is until the restart: on any
    state with [gameOver] set, a click on a cell changes nothing at all,
    Enter and Space only announce "Game over. Press Restart / New Game to
    play again.", and every listener but the restart leaves the board, the
    turn, [gameOver], the status text and the highlighted cells as they
    are. *)
Theorem game_over_absorbing (s : State) :
  gameOver s = true ->
  (forall i, clickCell i s = (Ok tt, s)) /\
  (forall key, key = "Enter" \/ key = " " ->
     handleKeyDown key s =
       (Ok tt, set_liveRegion "Game over. Press Restart / New Game to play again." s)) /\
  (forall index, attemptMove index s = (Ok GameIsOver, s)) /\
  (forall e, e <> RestartClick -> same_game s (snd (dispatch e s))).
Proof.
  intros Hover.
  assert (forall i, clickCell i s = (Ok tt, s)) as Hclick.
  { intros i. unfold clickCell, bind, gets, ret. by rewrite Hover. }
  assert (forall key, key = "Enter" \/ key = " " ->
            handleKeyDown key s =
              (Ok tt, set_liveRegion "Game over. Press Restart / New Game to play again." s))
    as Hplace.
  { intros key [-> | ->]; unfold handleKeyDown, bind, gets, announce, modify;
      simpl; by rewrite Hover. }
  do 2 (split; [done |]). split; [intros index; by apply attemptMove_over |].
  intros [i | key |] He; [| | done]; simpl.
  - rewrite Hclick. apply same_game_refl.
  - unfold handleKeyDown. cbv zeta.
    destruct (negb _ && negb _); [apply same_game_refl |].
    destruct (_ || _ || _ || _).
    + unfold bind, gets.
      pose proof (setFocus_state (focusStep (focusedIndex s) key) s) as Hst.
      destruct (setFocus _ s) as [[[] |] s1]; simpl in *; subst s1;
        apply same_game_focus.
    + destruct (_ || _); [| apply same_game_refl].
      unfold bind, gets, announce, modify. rewrite Hover. simpl. by repeat split.
Qed.

Lemma game_over_absorbing_witness :
  let s := dispatchAll [Click 0; Click 3; Click 1; Click 4; Click 2] (newGame initial) in
  gameOver s = true /\
  (forall i, clickCell i s = (Ok tt, s)) /\
  (forall key, key = "Enter" \/ key = " " ->
     handleKeyDown key s =
       (Ok tt, set_liveRegion "Game over. Press Restart / New Game to play again." s)) /\
  (forall index, attemptMove index s = (Ok GameIsOver, s)) /\
  (forall e, e <> RestartClick -> same_game s (snd (dispatch e s))).
Proof.
  intros s. split; [reflexivity |]. apply (game_over_absorbing s). reflexivity.
Defined.

(** Only Enter and Space can change the game: on any state, whatever else
    is pressed moves at most the focus index; the board, the turn,
    [gameOver], the status text, the live region and the highlighted cells
    are untouched.  A key that is neither an arrow nor Enter nor Space
    changes nothing at all. *)
Theorem keys_only_focus (key : string) (s : State) :
  key <> "Enter" -> key <> " " ->
  (exists i, snd (handleKeyDown key s) = set_focusedIndex i s) /\
  ((forall d, key <> key_of d) -> handleKeyDown key s = (Ok tt, s)).
Proof.
  intros HE HS. pose proof (is_place_false key HE HS) as Hplace.
  unfold handleKeyDown. cbv zeta. rewrite Hplace. split.
  - destruct (_ || _ || _ || _); simpl.
    + unfold bind, gets. rewrite setFocus_state. eauto.
    + exists (focusedIndex s). by rewrite set_focusedIndex_same.
  - intros Hd.
    rewrite (proj2 (String.eqb_neq key "ArrowUp")) by apply (Hd Up).
    rewrite (proj2 (String.eqb_neq key "ArrowDown")) by apply (Hd Down).
    rewrite (proj2 (String.eqb_neq key "ArrowLeft")) by apply (Hd Left).
    rewrite (proj2 (String.eqb_neq key "ArrowRight")) by apply (Hd Right).
    done.
Qed.

Lemma keys_only_focus_witness :
  "Tab" <> "Enter" /\ "Tab" <> " " /\
  (exists i, snd (handleKeyDown "Tab" (newGame initial)) =
             set_focusedIndex i (newGame initial)) /\
  ((forall d, "Tab" <> key_of d) ->
   handleKeyDown "Tab" (newGame initial) = (Ok tt, newGame initial)).
Proof.
  split; [discriminate |]. split; [discriminate |].
  apply (keys_only_focus "Tab" (newGame initial)); discriminate.
Defined.



(** ** Restart *)

(** The restart works from anywhere: whatever the state, [restartGame]
    returns without throwing and leaves one and the same state, with nine
    empty cells, X to move, the game not over, the focus on cell 0, the
    status "Turn: X" and no cell highlighted; so restarting twice is
    restarting once, and whatever happened before a restart is forgotten. *)
Theorem restart_anywhere (s : State) :
  restartGame s =
    (Ok tt, mkState (fill 9 Null) X false 0 "Turn: X" "New game started. Turn: X" []) /\
  newGame s = newGame initial /\
  newGame (newGame s) = newGame s /\
  (forall events, dispatchAll (events ++ [RestartClick]) s = newGame initial).
Proof.
  split; [reflexivity |]. split; [reflexivity |]. split; [reflexivity |].
  intros events. unfold dispatchAll. by rewrite fold_left_app.
Qed.

(** ** Keyboard navigation *)

Lemma pressAll_arrows (ds : list Direction) : forall s,
  0 <= focusedIndex s <= 8 ->
  pressAll (map key_of ds) s =
  set_focusedIndex
    (fold_left (fun i d => focusStep i (key_of d)) ds (focusedIndex s)) s.
Proof.
  induction ds as [| d ds IH]; intros s Hfocus.
  - simpl. by rewrite set_focusedIndex_same.
  - unfold pressAll in *. cbn [map fold_left].
    rewrite handleKeyDown_arrow, setFocus_inside by (by apply focusStep_range).
    cbn [snd]. rewrite IH by (simpl; by apply focusStep_range). done.
Qed.

(** The arrow keys reach every cell: from any focused cell of 0..8, at most
    four arrow presses (rows first, then columns) put the focus on any
    given cell of 0..8, and change nothing else. *)
Theorem arrows_reach_every_cell (s : State) (j : Z) :
  0 <= focusedIndex s <= 8 -> 0 <= j <= 8 ->
  pressAll (map key_of (route (focusedIndex s) j)) s = set_focusedIndex j s /\
  (List.length (route (focusedIndex s) j) <= 4)%nat.
Proof.
  intros Hi Hj. rewrite pressAll_arrows by done.
  remember (focusedIndex s) as i eqn:Heq. clear Heq.
  assert (i = 0 \/ i = 1 \/ i = 2 \/ i = 3 \/ i = 4 \/ i = 5 \/ i = 6 \/ i = 7 \/ i = 8)
    as Hicases by lia.
  assert (j = 0 \/ j = 1 \/ j = 2 \/ j = 3 \/ j = 4 \/ j = 5 \/ j = 6 \/ j = 7 \/ j = 8)
    as Hjcases by lia.
  repeat (destruct Hicases as [-> | Hicases]); try subst i;
    repeat (destruct Hjcases as [-> | Hjcases]); try subst j;
    (split; [vm_compute fold_left; reflexivity | vm_compute; lia]).
Qed.

Lemma arrows_reach_every_cell_witness :
  0 <= focusedIndex (newGame initial) <= 8 /\
  pressAll (map key_of (route (focusedIndex (newGame initial)) 8)) (newGame initial) =
    set_focusedIndex 8 (newGame initial) /\
  (List.length (route (focusedIndex (newGame initial)) 8) <= 4)%nat.
Proof.
  assert (0 <= focusedIndex (newGame initial) <= 8) as Hfocus by (simpl; lia).
  split; [exact Hfocus |].
  apply (arrows_reach_every_cell (newGame initial) 8 Hfocus). lia.
Defined.

(** ** Rendering twice *)

Lemma render_rendered s :
  0 <= focusedIndex s <= 8 -> render s = (Ok tt, rendered s).
Proof.
  intros Hfocus. unfold render, rendered, evaluate, clearWinStyles.
  unfold bind at 1. unfold modify at 1. unfold bind at 1. unfold gets at 1.
  cbn [board set_winCells].
  destruct (getWinner (board s)) as [w |] eqn:Hw.
  - apply getWinner_in in Hw as (Hin & _ & _).
    unfold bind at 1. rewrite addWin_line by done.
    unfold bind, setStatusText, announce, modify, gets. cbn.
    rewrite setFocus_inside by done. cbn. by rewrite orb_true_r.
  - destruct (isDraw (board s)).
    + unfold bind, setStatusText, announce, modify, gets. cbn.
      rewrite setFocus_inside by done. cbn. by rewrite orb_true_r.
    + unfold bind, setStatusText, modify, gets. cbn. by rewrite orb_false_r.
Qed.



(** ** The buttons follow the game *)

Ltac nine_cells cs Hlen :=
  do 9 (destruct cs as [| ? cs]; [discriminate Hlen |]);
  destruct cs; [clear Hlen | discriminate Hlen].

Ltac nine_indices i Hi :=
  let H := fresh "Hcases" in
  assert (i = 0 \/ i = 1 \/ i = 2 \/ i = 3 \/ i = 4 \/ i = 5 \/ i = 6 \/ i = 7 \/ i = 8)
    as H by lia;
  clear Hi; repeat (destruct H as [-> | H]); [.. | subst i].

Lemma Dom_setFocus_inside i s cs :
  List.length cs = 9%nat -> 0 <= i <= 8 ->
  Dom.setFocus i (Dom.mkPage s cs) =
  (Ok tt, Dom.mkPage (set_focusedIndex i s) (Dom.refocus i cs)).
Proof.
  intros Hlen Hi. nine_cells cs Hlen. nine_indices i Hi; reflexivity.
Qed.

Lemma Dom_paint_all s cs :
  List.length cs = 9%nat ->
  Dom.paint (seqZ 0 9) (Dom.mkPage s cs) = (Ok tt, Dom.mkPage s (Dom.repaint s cs)).
Proof.
  intros Hlen. nine_cells cs Hlen. by destruct s.
Qed.

Lemma Dom_addWin_line l s cs :
  List.length cs = 9%nat -> In l WIN_LINES ->
  Dom.addWin (line_cells l) (Dom.mkPage s cs) =
  (Ok tt, Dom.mkPage (set_winCells (winCells s ++ line_cells l) s)
                     (Dom.highlight (line_cells l) cs)).
Proof.
  intros Hlen Hin. nine_cells cs Hlen.
  assert (forall (w : list Z) a b c, w ++ [a; b; c] = ((w ++ [a]) ++ [b]) ++ [c])
    as Happ by (intros; by rewrite <- !app_assoc).
  simpl in Hin.
  repeat (destruct Hin as [<- | Hin];
          [cbn [line_cells]; rewrite Happ; reflexivity |]).
  destruct Hin.
Qed.

Lemma Dom_render_ok s cs :
  List.length cs = 9%nat -> 0 <= focusedIndex s <= 8 ->
  Dom.render (Dom.mkPage s cs) =
  (Ok tt, Dom.mkPage (rendered s) (Dom.cells_rendered s cs)).
Proof.
  intros Hlen Hfocus.
  assert (List.length (Dom.repaint s (map (Dom.set_win false) cs)) = 9%nat)
    as Hlen1 by (nine_cells cs Hlen; reflexivity).
  unfold Dom.render, Dom.clearWinStyles, Dom.cells_rendered, rendered, evaluate.
  unfold Dom.abind at 1. unfold Dom.abind at 1.
  unfold Dom.lift at 1. unfold modify at 1. cbn [Dom.game Dom.cells].
  unfold Dom.onCells at 1. cbn [Dom.game Dom.cells].
  unfold Dom.abind at 1. rewrite Dom_paint_all by (by rewrite length_map).
  unfold Dom.abind at 1. unfold Dom.lift at 1. unfold gets at 1.
  cbn [Dom.game Dom.cells board set_winCells].
  destruct (getWinner (board s)) as [w |] eqn:Hw.
  - apply getWinner_in in Hw as (Hin & _ & _).
    unfold Dom.abind at 1. rewrite Dom_addWin_line by done.
    unfold Dom.abind, Dom.lift, setStatusText, announce, modify, gets.
    cbn [Dom.game Dom.cells focusedIndex set_winCells set_statusText
         set_liveRegion set_gameOver winCells app].
    rewrite Dom_setFocus_inside; [| by nine_cells cs Hlen | done].
    cbn. by rewrite orb_true_r.
  - destruct (isDraw (board s)).
    + unfold Dom.abind, Dom.lift, setStatusText, announce, modify, gets.
      cbn [Dom.game Dom.cells focusedIndex set_winCells set_statusText
           set_liveRegion set_gameOver winCells].
      rewrite Dom_setFocus_inside; [| done | done].
      cbn [terminal status_cells]. rewrite orb_true_r.
      f_equal. f_equal. nine_cells cs Hlen. reflexivity.
    + unfold Dom.abind, Dom.lift, setStatusText, modify, gets.
      cbn [Dom.game Dom.cells terminal status_cells currentPlayer set_statusText
           set_winCells].
      rewrite orb_false_r. f_equal. f_equal.
      nine_cells cs Hlen. reflexivity.
Qed.

Lemma Dom_view_length s : List.length (Dom.view s) = 9%nat.
Proof. reflexivity. Qed.

Lemma Dom_view_focus i s : Dom.refocus i (Dom.view s) = Dom.view (set_focusedIndex i s).
Proof. reflexivity. Qed.

Lemma zip_with_fmap_self {A B C} (f : A -> B -> C) (g : A -> B) (l : list A) :
  zip_with f l (g <$> l) = (fun k => f k (g k)) <$> l.
Proof. induction l as [| a l IH]; [done | simpl; f_equal; apply IH]. Qed.

Lemma map_is_fmap {A B} (h : A -> B) (l : list A) : map h l = h <$> l.
Proof. induction l as [| a l IH]; [done | simpl; f_equal; apply IH]. Qed.

Lemma Dom_view_rendered s s1 :
  gameOver s1 = false -> focusedIndex s1 = focusedIndex s ->
  Dom.cells_rendered s1 (Dom.view s) = Dom.view (rendered s1).
Proof.
  intros Hover Hfocus.
  unfold Dom.cells_rendered, Dom.view, Dom.highlight, Dom.repaint, Dom.refocus.
  rewrite map_is_fmap, <- list_fmap_compose, !zip_with_fmap_self.
  destruct (terminal (evaluate (board s1))) eqn:Hterm;
    apply list_fmap_ext; intros _ k _;
    unfold Dom.button_of, rendered, compose; rewrite Hover, Hterm, <- Hfocus;
    cbn; by destruct (bool_decide (k ∈ status_cells (evaluate (board s1)))).
Qed.

Lemma Dom_view_cell s i :
  (0 <= i <= 8 -> Dom.cell (Dom.view s) i = Some (Dom.button_of s i)) /\
  (forall c, Dom.cell (Dom.view s) i = Some c -> 0 <= i <= 8).
Proof.
  split.
  - intros Hi. nine_indices i Hi; reflexivity.
  - intros c. unfold Dom.cell.
    destruct (i <? 0) eqn:Hneg; [discriminate |]. apply Z.ltb_ge in Hneg.
    intros Hc%lookup_lt_Some. rewrite Dom_view_length in Hc. lia.
Qed.

Lemma Dom_start_view :
  Dom.start = Dom.mkPage (newGame initial) (Dom.view (newGame initial)).
Proof. vm_compute. reflexivity. Qed.

Lemma Dom_restartGame_follows s :
  Dom.restartGame (Dom.mkPage s (Dom.view s)) =
  (Ok tt, Dom.mkPage (newGame s) (Dom.view (newGame s))).
Proof.
  unfold Dom.restartGame.
  repeat (unfold Dom.abind at 1; unfold Dom.lift at 1;
          first [unfold modify at 1 | unfold setStatusText at 1; unfold modify at 1
                | unfold announce at 1; unfold modify at 1];
          cbn [Dom.game Dom.cells]).
  unfold Dom.abind at 1. rewrite Dom_render_ok; [| reflexivity | simpl; lia].
  rewrite Dom_setFocus_inside; [| reflexivity | lia].
  reflexivity.
Qed.

Lemma Dom_attemptMove_follows index s :
  inv s ->
  Dom.attemptMove index (Dom.mkPage s (Dom.view s)) =
  (fst (attemptMove index s),
   Dom.mkPage (snd (attemptMove index s)) (Dom.view (snd (attemptMove index s)))).
Proof.
  intros [[Hwf Hfocus] _].
  rewrite attemptMove_unfold. unfold Dom.attemptMove.
  unfold Dom.abind at 1. unfold Dom.lift at 1. unfold gets at 1. cbn [Dom.game Dom.cells].
  destruct (gameOver s) eqn:Hover; [reflexivity |].
  unfold Dom.abind at 1. unfold Dom.lift at 1. unfold gets at 1. cbn [Dom.game Dom.cells].
  destruct (negb (strict_eq (get (board s) index) Null)); [reflexivity |].
  cbv zeta.
  repeat (unfold Dom.abind at 1; unfold Dom.lift at 1;
          first [unfold gets at 1 | unfold modify at 1
                | unfold announce at 1; unfold modify at 1];
          cbn [Dom.game Dom.cells currentPlayer set_board set_currentPlayer]).
  replace (if bool_decide (currentPlayer s = X) then O else X)
    with (other (currentPlayer s)) by (by destruct (currentPlayer s)).
  unfold Dom.abind at 1.
  rewrite Dom_render_ok; [| reflexivity | exact Hfocus].
  rewrite render_rendered by exact Hfocus.
  rewrite Dom_view_rendered; [reflexivity | exact Hover | reflexivity].
Qed.

Lemma Dom_dispatch_follows e s :
  inv s -> event_ok e ->
  Dom.dispatch e (Dom.mkPage s (Dom.view s)) =
  (Ok tt, Dom.mkPage (snd (dispatch e s)) (Dom.view (snd (dispatch e s)))).
Proof.
  intros Hinv He. destruct e as [i | key |]; cbn [Dom.dispatch dispatch] in *.
  - destruct (gameOver s) eqn:Hover.
    + assert (clickCell i s = (Ok tt, s)) as ->
        by (unfold clickCell, bind, gets, ret; by rewrite Hover).
      unfold Dom.clickCell, Dom.abind, Dom.lift, gets. cbn [Dom.game Dom.cells].
      rewrite Hover. reflexivity.
    + destruct (attemptMove_inv i (set_focusedIndex i s)) as (o & s' & Hrun & _);
        [by apply inv_set_focusedIndex |].
      assert (clickCell i s = (Ok tt, s')) as ->.
      { unfold clickCell, bind, gets, ret.
        by rewrite Hover, setFocus_inside, Hrun by done. }
      unfold Dom.clickCell, Dom.abind, Dom.lift, gets, Dom.aret.
      cbn [Dom.game Dom.cells].
      rewrite Hover, Dom_setFocus_inside, Dom_view_focus by (done || reflexivity).
      rewrite Dom_attemptMove_follows by (by apply inv_set_focusedIndex).
      rewrite Hrun. reflexivity.
  - unfold Dom.handleKeyDown, handleKeyDown. cbv zeta.
    destruct (negb _ && negb _); [reflexivity |].
    destruct (_ || _ || _ || _).
    + assert (0 <= focusStep (focusedIndex s) key <= 8) as Hrange
        by (apply focusStep_range, Hinv).
      unfold Dom.abind, Dom.lift, bind, gets. cbn [Dom.game Dom.cells].
      rewrite Dom_setFocus_inside, setFocus_inside, Dom_view_focus
        by (done || reflexivity).
      reflexivity.
    + destruct (_ || _); [| reflexivity].
      destruct (gameOver s) eqn:Hover.
      * unfold Dom.abind, Dom.lift, bind, gets, announce, modify.
        cbn [Dom.game Dom.cells]. rewrite Hover. reflexivity.
      * destruct (attemptMove_inv (focusedIndex s) s Hinv) as (o & s' & Hrun & _).
        unfold Dom.abind, Dom.lift, bind, gets, Dom.aret, ret.
        cbn [Dom.game Dom.cells].
        rewrite Hover, Dom_attemptMove_follows by done.
        cbn [Dom.game Dom.cells]. rewrite Hrun. reflexivity.
  - apply Dom_restartGame_follows.
Qed.

Lemma Dom_reachable_view p :
  Dom.reachable p -> reachable (Dom.game p) /\ Dom.cells p = Dom.view (Dom.game p).
Proof.
  induction 1 as [| p e _ [IHr IHc] He].
  - rewrite Dom_start_view. split; [apply reach_start | reflexivity].
  - destruct p as [s cs]. cbn [Dom.game Dom.cells] in *. subst cs.
    rewrite Dom_dispatch_follows by (done || apply reachable_good, IHr).
    split; [by apply reach_event | reflexivity].
Qed.

Lemma Dom_reachable_cell p i c :
  Dom.reachable p -> Dom.cell (Dom.cells p) i = Some c ->
  0 <= i <= 8 /\ c = Dom.button_of (Dom.game p) i.
Proof.
  intros [_ Hview]%Dom_reachable_view Hc. rewrite Hview in Hc.
  pose proof (proj2 (Dom_view_cell (Dom.game p) i) c Hc) as Hi.
  split; [exact Hi |].
  rewrite (proj1 (Dom_view_cell (Dom.game p) i) Hi) in Hc. congruence.
Qed.

(** The page never breaks: on every page of a session (the script has run,
    then any clicks on the nine cells, key presses and restarts) the nine
    buttons are there, no listener throws, and each listener changes the
    game variables exactly as the functions on the game state say, so what
    is proved of those holds on the page. *)
Theorem page_follows_game (p : Dom.Page) :
  Dom.reachable p ->
  reachable (Dom.game p) /\
  List.length (Dom.cells p) = 9%nat /\
  (forall e, event_ok e ->
     fst (Dom.dispatch e p) = Ok tt /\
     Dom.game (snd (Dom.dispatch e p)) = snd (dispatch e (Dom.game p))).
Proof.
  intros [Hreach Hview]%Dom_reachable_view.
  split; [exact Hreach |]. split; [by rewrite Hview |].
  intros e He. destruct p as [s cs]. cbn [Dom.game Dom.cells] in *. subst cs.
  by rewrite Dom_dispatch_follows by (done || apply reachable_good, Hreach).
Qed.

Lemma page_follows_game_witness :
  Dom.reachable (snd (Dom.dispatch (Click 4) Dom.start)) /\
  reachable (Dom.game (snd (Dom.dispatch (Click 4) Dom.start))) /\
  List.length (Dom.cells (snd (Dom.dispatch (Click 4) Dom.start))) = 9%nat /\
  (forall e, event_ok e ->
     fst (Dom.dispatch e (snd (Dom.dispatch (Click 4) Dom.start))) = Ok tt /\
     Dom.game (snd (Dom.dispatch e (snd (Dom.dispatch (Click 4) Dom.start)))) =
       snd (dispatch e (Dom.game (snd (Dom.dispatch (Click 4) Dom.start))))).
Proof.
  assert (Dom.reachable (snd (Dom.dispatch (Click 4) Dom.start))) as Hreach
    by (apply (Dom.reach_event _ (Click 4) Dom.reach_start); simpl; lia).
  split; [exact Hreach |]. apply (page_follows_game _ Hreach).
Defined.

(** Every button shows its cell: on every page of a session the button of
    cell [i] has the mark of [board[i]] as its text, or no text when the
    cell is empty, has aria-pressed "true" exactly when the cell holds a
    mark, and keeps the label "Row r Column c" and the index it was built
    with (r and c counted from 1). *)
Theorem buttons_show_board (p : Dom.Page) (i : Z) :
  Dom.reachable p -> 0 <= i <= 8 ->
  exists c,
    Dom.cell (Dom.cells p) i = Some c /\
    Dom.textContent c =
      match get (board (Dom.game p)) i with Str m => player_text m | _ => "" end /\
    Dom.ariaPressed c =
      match get (board (Dom.game p)) i with Str _ => "true" | _ => "false" end /\
    Dom.ariaLabel c =
      "Row " +:+ pretty (i `div` 3 + 1) +:+ " Column " +:+ pretty (i `mod` 3 + 1) /\
    Dom.dataIndex c = pretty i.
Proof.
  intros [_ Hview]%Dom_reachable_view Hi.
  exists (Dom.button_of (Dom.game p) i).
  split; [rewrite Hview; by apply Dom_view_cell |].
  unfold Dom.button_of. cbn.
  split; [by destruct (get (board (Dom.game p)) i) |].
  split; [by destruct (get (board (Dom.game p)) i) |].
  split; [| reflexivity].
  nine_indices i Hi; reflexivity.
Qed.

Lemma buttons_show_board_witness :
  Dom.reachable (snd (Dom.dispatch (Click 4) Dom.start)) /\
  exists c,
    Dom.cell (Dom.cells (snd (Dom.dispatch (Click 4) Dom.start))) 4 = Some c /\
    Dom.textContent c =
      match get (board (Dom.game (snd (Dom.dispatch (Click 4) Dom.start)))) 4 with
      | Str m => player_text m
      | _ => ""
      end /\
    Dom.ariaPressed c =
      match get (board (Dom.game (snd (Dom.dispatch (Click 4) Dom.start)))) 4 with
      | Str _ => "true"
      | _ => "false"
      end /\
    Dom.ariaLabel c =
      "Row " +:+ pretty (4 `div` 3 + 1) +:+ " Column " +:+ pretty (4 `mod` 3 + 1) /\
    Dom.dataIndex c = pretty 4.
Proof.
  assert (Dom.reachable (snd (Dom.dispatch (Click 4) Dom.start))) as Hreach
    by (apply (Dom.reach_event _ (Click 4) Dom.reach_start); simpl; lia).
  split; [exact Hreach |]. apply (buttons_show_board _ 4 Hreach). lia.
Defined.



(** The winning line, and nothing else, is highlighted: on every page of a
    session a button carries the class "win" exactly when the board is won
    and the button's cell is on the line [evaluate] reports. *)
Theorem winning_line_highlighted (p : Dom.Page) (i : Z) (c : Dom.Button) :
  Dom.reachable p -> Dom.cell (Dom.cells p) i = Some c ->
  (Dom.win c = true <->
   exists m l, evaluate (board (Dom.game p)) = Won m l /\ In i (line_cells l)).
Proof.
  intros Hreach [_ ->]%(Dom_reachable_cell p i c Hreach).
  apply Dom_reachable_view in Hreach as [Hgame _].
  apply reachable_good in Hgame as (_ & (_ & _ & Hw) & _).
  unfold Dom.button_of. cbn. rewrite bool_decide_eq_true, Hw, list_elem_of_In.
  destruct (evaluate (board (Dom.game p))) as [| m l |]; simpl.
  - split; [done | by intros (m & l & ? & _)].
  - split; [by eauto |]. by intros (m' & l' & [= _ <-] & Hin).
  - split; [done | by intros (m & l & ? & _)].
Qed.

Lemma winning_line_highlighted_witness :
  let p := Dom.dispatchAll [Click 0; Click 3; Click 1; Click 4; Click 2] Dom.start in
  Dom.reachable p /\
  Dom.cell (Dom.cells p) 1 = Some (Dom.button_of (Dom.game p) 1) /\
  (Dom.win (Dom.button_of (Dom.game p) 1) = true <->
   exists m l, evaluate (board (Dom.game p)) = Won m l /\ In 1 (line_cells l)).
Proof.
  intros p.
  assert (Dom.reachable p) as Hreach.
  { unfold p, Dom.dispatchAll. cbn [fold_left].
    do 5 (apply Dom.reach_event; [| simpl; lia]). apply Dom.reach_start. }
  assert (Dom.cell (Dom.cells p) 1 = Some (Dom.button_of (Dom.game p) 1)) as Hcell
    by (vm_compute; reflexivity).
  split; [exact Hreach |]. split; [exact Hcell |].
  apply (winning_line_highlighted p 1 _ Hreach Hcell).
Defined.

(** A button is disabled exactly when its cell is occupied: on every page
    of a session, [disabled] is set on the buttons of marked cells and on
    no other.  In particular the end of the game disables nothing: the
    loop of [render] reads [gameOver] before [render] sets it, so the
    buttons of the empty cells of a finished game stay enabled, and it is
    the check in the listeners that refuses the move. *)
Theorem disabled_iff_occupied (p : Dom.Page) (i : Z) (c : Dom.Button) :
  Dom.reachable p -> Dom.cell (Dom.cells p) i = Some c ->
  (Dom.disabled c = true <-> non_empty (get (board (Dom.game p)) i)) /\
  (gameOver (Dom.game p) = true -> get (board (Dom.game p)) i = Null ->
   Dom.disabled c = false /\ clickCell i (Dom.game p) = (Ok tt, Dom.game p)).
Proof.
  intros Hreach [Hi ->]%(Dom_reachable_cell p i c Hreach).
  apply Dom_reachable_view in Hreach as [Hgame _].
  apply reachable_good in Hgame as (([Hwf _] & _) & _).
  pose proof (wf_get_inside _ i Hwf Hi) as Hdef.
  unfold Dom.button_of. cbn. split.
  - unfold strict_eq. rewrite negb_true_iff, bool_decide_eq_false.
    destruct (get (board (Dom.game p)) i) as [| | m]; split; try done.
    + by intros [? ?].
    + intros _. by exists m.
  - intros Hover ->. split; [reflexivity |].
    unfold clickCell, bind, gets, ret. by rewrite Hover.
Qed.

Lemma disabled_iff_occupied_witness :
  let p := Dom.dispatchAll [Click 0; Click 3; Click 1; Click 4; Click 2] Dom.start in
  Dom.reachable p /\
  gameOver (Dom.game p) = true /\
  get (board (Dom.game p)) 8 = Null /\
  Dom.cell (Dom.cells p) 8 = Some (Dom.button_of (Dom.game p) 8) /\
  (Dom.disabled (Dom.button_of (Dom.game p) 8) = true <->
   non_empty (get (board (Dom.game p)) 8)) /\
  (gameOver (Dom.game p) = true -> get (board (Dom.game p)) 8 = Null ->
   Dom.disabled (Dom.button_of (Dom.game p) 8) = false /\
   clickCell 8 (Dom.game p) = (Ok tt, Dom.game p)).
Proof.
  intros p.
  assert (Dom.reachable p) as Hreach.
  { unfold p, Dom.dispatchAll. cbn [fold_left].
    do 5 (apply Dom.reach_event; [| simpl; lia]). apply Dom.reach_start. }
  assert (Dom.cell (Dom.cells p) 8 = Some (Dom.button_of (Dom.game p) 8)) as Hcell
    by (vm_compute; reflexivity).
  split; [exact Hreach |]. split; [vm_compute; reflexivity |].
  split; [vm_compute; reflexivity |]. split; [exact Hcell |].
  apply (disabled_iff_occupied p 8 _ Hreach Hcell).
Defined.

(** ** Announcements *)

(** Every attempt on a game that is not over is announced in the live
    region: "That cell is already taken." when the cell is not empty (or
    the index is out of range), and for a placed move either the result,
    which is then also the status text ("X wins!", "O wins!", "Draw!"), or
    "Move placed. Turn: P" with the player who moves next. *)
Theorem move_announced (s : State) (index : Z) :
  wf_state s -> gameOver s = false ->
  (get (board s) index <> Null ->
   liveRegion (snd (attemptMove index s)) = "That cell is already taken.") /\
  (get (board s) index = Null ->
   liveRegion (snd (attemptMove index s)) =
     if gameOver (snd (attemptMove index s))
     then statusText (snd (attemptMove index s))
     else "Move placed. Turn: " +:+ player_text (currentPlayer (snd (attemptMove index s)))).
Proof.
  intros [_ Hfocus] Hover. split.
  - intros Hnn. by rewrite attemptMove_taken.
  - intros Hnull. rewrite attemptMove_unfold, Hover.
    rewrite (proj2 (strict_eq_Null _) Hnull). cbv zeta.
    rewrite render_rendered by exact Hfocus.
    unfold rendered. cbn. rewrite Hover. cbn.
    by destruct (terminal _).
Qed.

Lemma move_announced_witness :
  wf_state (newGame initial) /\ gameOver (newGame initial) = false /\
  (get (board (newGame initial)) 4 <> Null ->
   liveRegion (snd (attemptMove 4 (newGame initial))) = "That cell is already taken.") /\
  (get (board (newGame initial)) 4 = Null ->
   liveRegion (snd (attemptMove 4 (newGame initial))) =
     if gameOver (snd (attemptMove 4 (newGame initial)))
     then statusText (snd (attemptMove 4 (newGame initial)))
     else "Move placed. Turn: " +:+
          player_text (currentPlayer (snd (attemptMove 4 (newGame initial))))).
Proof.
  split; [apply wf_newGame |]. split; [reflexivity |].
  apply (move_announced (newGame initial) 4); [apply wf_newGame | reflexivity].
Defined.

(** ** The ninth move *)



